(** * Infrared gateway: the registry of gates and its hot-reload path

    A shallow embedding of [gateway.go].  The gateway owns a map from
    listening address to [*Gate]; every gate owns a map from domain name to
    [*Proxy].  Gates and proxies are heap objects reached through pointers,
    and the hot-reload path mutates a proxy in place while gates still hold
    it, so the model keeps an explicit object store and the gateway and the
    gates hold pointers into it.

    Every operation is written in a small monad that threads the world,
    records each world produced by a mutation (the states a reader could
    observe while the call runs) and distinguishes a call that returns, a
    call that blocks for ever on the wait group, and a nil dereference. *)

From stdpp Require Import base option gmap strings list fin_maps.
From Stdlib Require Import NArith.

Set Default Proof Using "Type".

(** ** Values *)

Abbreviation ptr := positive (only parsing).

(** The package-level error values used by [gateway.go]. They are declared
    in a file of the package that is not part of the sources at hand; only
    their identity matters here. *)
Inductive Error : Type :=
  | ErrGateSignatureAlreadyRegistered
  | ErrNoGateInGateway
  | ErrGateDoesNotExist
  | ErrDuplicateHostname
  | ErrCollaborator (msg : string).

#[global] Instance Error_eq_dec : EqDecision Error.
Proof. solve_decision. Defined.

(** Modelled from the spec: the type [ProxyConfig] is declared outside the
    sources at hand. [gateway.go] reads its field [ListenTo]; the spec gives
    a configuration "a target listening address, a virtual hostname, and
    backend-target parameters", the last being opaque to the registry. *)
Record ProxyConfig : Type := mkProxyConfig {
  ListenTo : string;
  DomainName : string;
  ProxyTo : string
}.

#[global] Instance ProxyConfig_eq_dec : EqDecision ProxyConfig.
Proof. solve_decision. Defined.

(** *** Logging (zerolog) *)

(** [zerolog.Level], from [DebugLevel] (0) to [Disabled] (7). *)
Inductive Level : Type :=
  | DebugLevel | InfoLevel | WarnLevel | ErrorLevel
  | FatalLevel | PanicLevel | NoLevel | Disabled.

Definition Level_rank (l : Level) : nat :=
  match l with
  | DebugLevel => 0 | InfoLevel => 1 | WarnLevel => 2 | ErrorLevel => 3
  | FatalLevel => 4 | PanicLevel => 5 | NoLevel => 6 | Disabled => 7
  end.

(** An [io.Writer]: a sink known by a number, or [io.MultiWriter(ws...)]. *)
#[warnings="-register-all"]
Inductive Writer : Type :=
  | Sink (id : nat)
  | MultiWriter (ws : list Writer).

(** A [zerolog.Logger] value: where it writes and the context fields added
    with [With().Str(k, v)]. *)
Record Logger : Type := mkLogger {
  logger_out : Writer;
  logger_ctx : list (string * string)
}.

Definition Logger_Output (l : Logger) (w : Writer) : Logger :=
  {| logger_out := w; logger_ctx := logger_ctx l |}.

Definition Logger_With_Str (l : Logger) (k v : string) : Logger :=
  {| logger_out := logger_out l; logger_ctx := logger_ctx l ++ [(k, v)] |}.

(** [log.Logger], the package default, writes to standard error. *)
Definition log_Logger : Logger := {| logger_out := Sink 0; logger_ctx := [] |}.

Record LogLine : Type := mkLogLine {
  line_level : Level;
  line_out : Writer;
  line_fields : list (string * string);
  line_err : option Error;
  line_msg : string
}.

(** *** fsnotify events

    [fsnotify.Op] is a bit mask ([Create Op = 1 << iota]); an event may
    carry several bits. *)
Definition Op := N.
Definition fsnotify_Create : Op := 1%N.
Definition fsnotify_Write : Op := 2%N.
Definition fsnotify_Remove : Op := 4%N.
Definition fsnotify_Rename : Op := 8%N.
Definition fsnotify_Chmod : Op := 16%N.

Record Event : Type := mkEvent {
  event_Name : string;
  event_Op : Op
}.

(** A [*viper.Viper] handle, known by a number. *)
Definition Viper := nat.

(** ** Heap objects *)

(** Modelled from the spec: the struct [Proxy] is declared outside the
    sources at hand. [gateway.go] reads [proxy.listenTo] and
    [proxy.domainName] through their [Read] accessor; the spec's route has
    an address, a hostname and an opaque config. *)
Record Proxy : Type := mkProxy {
  proxy_listenTo : string;
  proxy_domainName : string;
  proxy_config : ProxyConfig
}.

(** Modelled from the spec: the struct [Gate] is declared outside the
    sources at hand. [gateway.go] reads [gate.listenTo]; the spec's
    multiplexer has an address fixed at construction, the routes keyed by
    hostname, and an accept loop that [close] stops; the logger fields
    mirror those of [Gateway]. *)
Record Gate : Type := mkGate {
  gate_listenTo : string;
  gate_proxies : gmap string ptr;
  gate_closed : bool;
  gate_logger : Logger;
  gate_loggerOutputs : list Writer
}.

Record Store : Type := mkStore {
  proxyObjs : gmap ptr Proxy;
  gateObjs : gmap ptr Gate
}.

(** [type Gateway struct]: [wg] is the counter of the [*sync.WaitGroup]. *)
Record Gateway : Type := mkGateway {
  gates : gmap string ptr;
  wg : nat;
  running : bool;
  logger : Logger;
  loggerOutputs : list Writer
}.

(** A goroutine started by the gateway to serve one gate. It remembers the
    gate it serves and the address it will delete from [gateway.gates] when
    [gate.ListenAndServe()] returns. *)
Record Task : Type := mkTask {
  task_gate : ptr;
  task_listenTo : string
}.

(** What the process did to the outside: log lines written and
    configuration files read. *)
Inductive IOEvent : Type :=
  | Logged (l : LogLine)
  | ConfigLoaded (vpr : Viper).

(** The world: the object store, the one gateway, the goroutines that were
    started and have not finished, zerolog's global level and the I/O done
    so far. *)
Record World : Type := mkWorld {
  heap : Store;
  gateway : Gateway;
  tasks : list Task;
  globalLevel : Level;
  io : list IOEvent
}.

(** *** Field updates *)

Definition set_proxyObjs (f : gmap ptr Proxy → gmap ptr Proxy) (s : Store) : Store :=
  {| proxyObjs := f (proxyObjs s); gateObjs := gateObjs s |}.

Definition set_gateObjs (f : gmap ptr Gate → gmap ptr Gate) (s : Store) : Store :=
  {| proxyObjs := proxyObjs s; gateObjs := f (gateObjs s) |}.

Definition set_heap (f : Store → Store) (w : World) : World :=
  {| heap := f (heap w); gateway := gateway w; tasks := tasks w;
     globalLevel := globalLevel w; io := io w |}.

Definition set_gateway (f : Gateway → Gateway) (w : World) : World :=
  {| heap := heap w; gateway := f (gateway w); tasks := tasks w;
     globalLevel := globalLevel w; io := io w |}.

Definition set_tasks (f : list Task → list Task) (w : World) : World :=
  {| heap := heap w; gateway := gateway w; tasks := f (tasks w);
     globalLevel := globalLevel w; io := io w |}.

Definition set_io (f : list IOEvent → list IOEvent) (w : World) : World :=
  {| heap := heap w; gateway := gateway w; tasks := tasks w;
     globalLevel := globalLevel w; io := f (io w) |}.

Definition set_gates (f : gmap string ptr → gmap string ptr) (g : Gateway) : Gateway :=
  {| gates := f (gates g); wg := wg g; running := running g;
     logger := logger g; loggerOutputs := loggerOutputs g |}.

Definition set_wg (f : nat → nat) (g : Gateway) : Gateway :=
  {| gates := gates g; wg := f (wg g); running := running g;
     logger := logger g; loggerOutputs := loggerOutputs g |}.

Definition set_running (b : bool) (g : Gateway) : Gateway :=
  {| gates := gates g; wg := wg g; running := b;
     logger := logger g; loggerOutputs := loggerOutputs g |}.

Definition set_logger (l : Logger) (g : Gateway) : Gateway :=
  {| gates := gates g; wg := wg g; running := running g;
     logger := l; loggerOutputs := loggerOutputs g |}.

Definition set_loggerOutputs (f : list Writer → list Writer) (g : Gateway) : Gateway :=
  {| gates := gates g; wg := wg g; running := running g;
     logger := logger g; loggerOutputs := f (loggerOutputs g) |}.

Definition set_gate_proxies (f : gmap string ptr → gmap string ptr) (g : Gate) : Gate :=
  {| gate_listenTo := gate_listenTo g; gate_proxies := f (gate_proxies g);
     gate_closed := gate_closed g; gate_logger := gate_logger g;
     gate_loggerOutputs := gate_loggerOutputs g |}.

Definition set_gate_closed (b : bool) (g : Gate) : Gate :=
  {| gate_listenTo := gate_listenTo g; gate_proxies := gate_proxies g;
     gate_closed := b; gate_logger := gate_logger g;
     gate_loggerOutputs := gate_loggerOutputs g |}.

Definition set_gate_logger (l : Logger) (g : Gate) : Gate :=
  {| gate_listenTo := gate_listenTo g; gate_proxies := gate_proxies g;
     gate_closed := gate_closed g; gate_logger := l;
     gate_loggerOutputs := gate_loggerOutputs g |}.

Definition set_gate_loggerOutputs (f : list Writer → list Writer) (g : Gate) : Gate :=
  {| gate_listenTo := gate_listenTo g; gate_proxies := gate_proxies g;
     gate_closed := gate_closed g; gate_logger := gate_logger g;
     gate_loggerOutputs := f (gate_loggerOutputs g) |}.

(** ** The monad of gateway operations *)

(** How a call ends: it returns [a] in world [w]; it blocks for ever in
    world [w] (a [wg.Wait()] that is never released); or it dereferences a
    pointer to no object and panics. *)
Inductive Outcome (A : Type) : Type :=
  | Ret (a : A) (w : World)
  | Blocked (w : World)
  | Panic.
Arguments Ret {A} a w.
Arguments Blocked {A} w.
Arguments Panic {A}.

(** A computation maps the world it starts in to the worlds it passes
    through, one per mutation and in order, and to its outcome. *)
Definition M (A : Type) : Type := World → list World * Outcome A.

Definition ret {A} (a : A) : M A := λ w, ([], Ret a w).

(** The worlds [t] were passed through before the rest of the call ran. *)
Definition after_trace {B} (t : list World) (r : list World * Outcome B)
    : list World * Outcome B :=
  (t ++ r.1, r.2).

Definition bind {A B} (m : M A) (k : A → M B) : M B := λ w,
  match m w with
  | (t, Ret a w') => after_trace t (k a w')
  | (t, Blocked w') => (t, Blocked w')
  | (t, Panic) => (t, Panic)
  end.

Declare Scope gw_scope.
Delimit Scope gw_scope with gw.
Notation "x ← y ; z" := (bind y (λ x, z))
  (at level 20, y at level 100, z at level 200, only parsing) : gw_scope.
Notation "x ;; z" := (bind x (λ _, z))
  (at level 100, z at level 200, only parsing, right associativity) : gw_scope.
Open Scope gw_scope.

Definition getW : M World := λ w, ([], Ret w w).
Definition modifyW (f : World → World) : M unit := λ w, ([f w], Ret tt (f w)).
Definition panic {A} : M A := λ _, ([], Panic).
Definition block {A} : M A := λ w, ([], Blocked w).

Definition visited {A} (m : M A) (w : World) : list World := (m w).1.
Definition outcome {A} (m : M A) (w : World) : Outcome A := (m w).2.

Definition getGateway : M Gateway := w ← getW; ret (gateway w).
Definition modifyGateway (f : Gateway → Gateway) : M unit := modifyW (set_gateway f).

(** Dereferencing: a pointer to no object is a nil dereference. *)
Definition readProxy (p : ptr) : M Proxy :=
  w ← getW;
  match proxyObjs (heap w) !! p with
  | Some P => ret P
  | None => panic
  end.

Definition readGate (g : ptr) : M Gate :=
  w ← getW;
  match gateObjs (heap w) !! g with
  | Some G => ret G
  | None => panic
  end.

Definition upd_proxy (p : ptr) (P : Proxy) : World → World :=
  set_heap (set_proxyObjs (<[p := P]>)).

Definition upd_gate (g : ptr) (G : Gate) : World → World :=
  set_heap (set_gateObjs (<[g := G]>)).

Definition writeProxy (p : ptr) (P : Proxy) : M unit := modifyW (upd_proxy p P).
Definition writeGate (g : ptr) (G : Gate) : M unit := modifyW (upd_gate g G).

(** Emitting a log line: zerolog drops a line below the global level. *)
Definition written (l : Logger) (lvl : Level) (fields : list (string * string))
    (err : option Error) (msg : string) : World → World :=
  set_io (λ evs, evs ++
    [Logged {| line_level := lvl; line_out := logger_out l;
               line_fields := logger_ctx l ++ fields;
               line_err := err; line_msg := msg |}]).

Definition logMsg (l : Logger) (lvl : Level) (fields : list (string * string))
    (err : option Error) (msg : string) : M unit :=
  w ← getW;
  if decide (Level_rank (globalLevel w) ≤ Level_rank lvl) then
    modifyW (written l lvl fields err msg)
  else ret tt.

(** ** Collaborators outside the registry

    What the registry calls but does not own: validation of a route's
    configuration, construction of a listener for an address, a gate's own
    [UpdateProxy], reading a configuration file, and the accept loop of a
    gate. They are parameters of the development; a gate's method only
    reaches the object store, never the gateway. *)
Class Collaborators : Type := {
  (** The check [proxy.updateConfig] runs before it changes any field;
      [None] accepts. *)
  validateConfig : ProxyConfig → option Error;
  (** The failure of [NewGate(addr)], if any (an invalid address). *)
  checkListenTo : string → option Error;
  (** [gate.UpdateProxy(proxy, cfg)] on the object store; [None] is a nil
      dereference. *)
  Gate_UpdateProxy : ptr → ptr → ProxyConfig → Store → option (option Error * Store);
  (** [LoadProxyConfig(vpr)]: the configuration the file holds, or the
      error of reading it. *)
  LoadProxyConfig : Viper → ProxyConfig + Error;
  (** [gate.ListenAndServe()] for the gate listening on an address: [None]
      if the accept loop never ends, else the error it returns. *)
  Gate_ListenAndServe : string → option (option Error)
}.

Section Infrared.
Context `{C : Collaborators}.

(** *** Proxy *)

Definition Proxy_listenTo_Read (p : ptr) : M string :=
  P ← readProxy p; ret (proxy_listenTo P).

Definition Proxy_domainName_Read (p : ptr) : M string :=
  P ← readProxy p; ret (proxy_domainName P).

(** The route after [updateConfig] accepted [cfg]. *)
Definition configured (cfg : ProxyConfig) : Proxy :=
  {| proxy_listenTo := ListenTo cfg; proxy_domainName := DomainName cfg;
     proxy_config := cfg |}.

(** Modelled from the spec: [proxy.updateConfig] is defined outside the
    sources at hand. "Validates new_config, then atomically replaces
    address, hostname, and config as a single logical unit [...] on failure,
    no field changes." *)
Definition Proxy_updateConfig (p : ptr) (cfg : ProxyConfig) : M (option Error) :=
  _ ← readProxy p;
  match validateConfig cfg with
  | Some err => ret (Some err)
  | None =>
      writeProxy p (configured cfg);;
      ret None
  end.

(** *** Gate *)

Definition Gate_listenTo (g : ptr) : M string :=
  G ← readGate g; ret (gate_listenTo G).

(** The gate [NewGate(addr)] builds. *)
Definition new_gate (addr : string) : Gate :=
  {| gate_listenTo := addr; gate_proxies := ∅; gate_closed := false;
     gate_logger := log_Logger; gate_loggerOutputs := [] |}.

(** Modelled from the spec: [NewGate] is defined outside the sources at
    hand. "Create a new multiplexer for that address"; it may fail with a
    "multiplexer-construction error (e.g., invalid address)". The new gate
    is a new object: its pointer is fresh for the store. *)
Definition NewGate (addr : string) : M (ptr + Error) :=
  match checkListenTo addr with
  | Some err => ret (inr err)
  | None =>
      w ← getW;
      let g := fresh (dom (gateObjs (heap w))) in
      writeGate g (new_gate addr);;
      ret (inl g)
  end.

(** Modelled from the spec: [gate.AddProxy] is defined outside the sources
    at hand. "Fails with DuplicateHostname if a route with the same hostname
    already exists; otherwise inserts." The hostname is the one the route
    reports when it is added. *)
Definition Gate_AddProxy (g p : ptr) : M (option Error) :=
  domainName ← Proxy_domainName_Read p;
  G ← readGate g;
  match gate_proxies G !! domainName with
  | Some _ => ret (Some ErrDuplicateHostname)
  | None =>
      writeGate g (set_gate_proxies (<[domainName := p]>) G);;
      ret None
  end.

(** Modelled from the spec: [gate.RemoveProxy] is defined outside the
    sources at hand. "No-op if absent; otherwise detaches the route." *)
Definition Gate_RemoveProxy (g : ptr) (domainName : string) : M unit :=
  G ← readGate g;
  match gate_proxies G !! domainName with
  | None => ret tt
  | Some _ => writeGate g (set_gate_proxies (delete domainName) G)
  end.

(** Modelled from the spec: [gate.Close] is defined outside the sources at
    hand. "Stops accepting [...]; idempotent." *)
Definition Gate_Close (g : ptr) : M unit :=
  G ← readGate g;
  writeGate g (set_gate_closed true G).

(** The gate after [AddLoggerOutput(out)] and after [overrideLogger(l)]. *)
Definition with_output (out : Writer) (G : Gate) : Gate :=
  set_gate_logger
    (Logger_Output (gate_logger G) (MultiWriter (gate_loggerOutputs G ++ [out])))
    (set_gate_loggerOutputs (λ _, gate_loggerOutputs G ++ [out]) G).

Definition with_logger (l : Logger) (G : Gate) : Gate :=
  set_gate_logger (Logger_Output l (MultiWriter (gate_loggerOutputs G))) G.

(** Modelled from the spec: the two logger methods of [Gate] are defined
    outside the sources at hand; they do to the gate what the methods of the
    same name in [gateway.go] do to the gateway ("recursively pushes the same
    change to every currently-registered Multiplexer"). The logging context
    of the routes is not part of the model. *)
Definition Gate_AddLoggerOutput (g : ptr) (w : Writer) : M unit :=
  G ← readGate g;
  writeGate g (with_output w G).

Definition Gate_overrideLogger (g : ptr) (l : Logger) : M unit :=
  G ← readGate g;
  writeGate g (with_logger l G).

(** A gate's [UpdateProxy] acts on the object store only. *)
Definition call_Gate_UpdateProxy (g p : ptr) (cfg : ProxyConfig) : M (option Error) :=
  λ w, match Gate_UpdateProxy g p cfg (heap w) with
       | None => ([], Panic)
       | Some (r, s) => let w' := set_heap (λ _, s) w in ([w'], Ret r w')
       end.

(** Reading the configuration file is an effect on the outside. *)
Definition call_LoadProxyConfig (vpr : Viper) : M (ProxyConfig + Error) :=
  modifyW (set_io (λ evs, evs ++ [ConfigLoaded vpr]));;
  ret (LoadProxyConfig vpr).

(** *** Goroutines and the wait group *)

Definition wg_Add (n : nat) : M unit := modifyGateway (set_wg (λ c, c + n)).

(** [wg.Done()] panics when the counter would become negative. *)
Definition wg_Done : M unit :=
  gw ← getGateway;
  if decide (wg gw = 0) then panic else modifyGateway (set_wg Nat.pred).

(** [go func() { ... }()]: the goroutine is started. In the functions of
    this section it runs when the wait group is waited for, which is one
    of the schedules the source allows; [serve_step] below has them all. *)
Definition go (t : Task) : M unit := modifyW (set_tasks (λ ts, ts ++ [t])).

(** The end of a serving goroutine, after [gate.ListenAndServe()] returned:
[[
    if err := gate.ListenAndServe(); err != nil { gateway.logger.Err(err) }
    delete(gateway.gates, gate.listenTo)
    gateway.wg.Done()
]]
    [logger.Err(err)] builds an event that is never sent ([Msg] is not
    called on it), so nothing is written. *)
Definition finishTask (t : Task) : M unit :=
  modifyGateway (set_gates (delete (task_listenTo t)));;
  wg_Done.

(** One schedule of the goroutines: once the caller waits, those whose
    accept loop ends run to their end one after another, in the order they
    were started; those that serve for ever are given back. *)
Fixpoint joinTasks (ts : list Task) : M (list Task) :=
  match ts with
  | [] => ret []
  | t :: ts' =>
      match Gate_ListenAndServe (task_listenTo t) with
      | Some _ => finishTask t;; joinTasks ts'
      | None => rest ← joinTasks ts'; ret (t :: rest)
      end
  end.

(** [gateway.wg.Wait()], in that schedule: returns once the counter is
    zero; blocks for ever when a goroutine never calls [Done]. *)
Definition wg_Wait : M unit :=
  w ← getW;
  rest ← joinTasks (tasks w);
  modifyW (set_tasks (λ _, rest));;
  gw ← getGateway;
  if decide (wg gw = 0) then ret tt else block.

(** *** Gateway *)

(** [NewGateway()] *)
Definition NewGateway : Gateway :=
  {| gates := ∅; wg := 0; running := false;
     logger := log_Logger; loggerOutputs := [] |}.

(** [for _, gate := range gateway.gates { body }]. Go leaves the order of
    the range open; the model ranges in the order of [map_to_list]. *)
Fixpoint forGates (body : ptr → M unit) (l : list (string * ptr)) : M unit :=
  match l with
  | [] => ret tt
  | (_, gate) :: l' => body gate;; forGates body l'
  end.

(** [func (gateway *Gateway) AddLoggerOutput(w io.Writer)] *)
Definition Gateway_AddLoggerOutput (w : Writer) : M unit :=
  modifyGateway (set_loggerOutputs (λ outs, outs ++ [w]));;
  gw ← getGateway;
  modifyGateway (set_logger (Logger_Output (logger gw) (MultiWriter (loggerOutputs gw))));;
  gw ← getGateway;
  forGates (λ gate, Gate_AddLoggerOutput gate w) (map_to_list (gates gw)).

(** [func (gateway *Gateway) overrideLogger(logger zerolog.Logger) zerolog.Logger] *)
Definition Gateway_overrideLogger (l : Logger) : M Logger :=
  gw ← getGateway;
  modifyGateway (set_logger (Logger_Output l (MultiWriter (loggerOutputs gw))));;
  gw ← getGateway;
  forGates (λ gate, Gate_overrideLogger gate l) (map_to_list (gates gw));;
  gw ← getGateway;
  ret (logger gw).

(** [func (gateway *Gateway) AddGate(gate *Gate) error] *)
Definition Gateway_AddGate (gate : ptr) : M (option Error) :=
  gw ← getGateway;
  listenTo ← Gate_listenTo gate;
  match gates gw !! listenTo with
  | Some _ => ret (Some ErrGateSignatureAlreadyRegistered)
  | None =>
      Gate_AddLoggerOutput gate (MultiWriter (loggerOutputs gw));;
      Gate_overrideLogger gate (logger gw);;
      listenTo ← Gate_listenTo gate;
      modifyGateway (set_gates (<[listenTo := gate]>));;
      gw ← getGateway;
      listenTo ← Gate_listenTo gate;
      logMsg (logger gw) DebugLevel [("gate", listenTo)] None "Added gate to gateway";;
      gw ← getGateway;
      if negb (running gw) then ret None
      else
        wg_Add 1;;
        listenTo ← Gate_listenTo gate;
        go {| task_gate := gate; task_listenTo := listenTo |};;
        ret None
  end.

(** [func (gateway *Gateway) RemoveGate(addr string)] *)
Definition Gateway_RemoveGate (addr : string) : M unit :=
  gw ← getGateway;
  match gates gw !! addr with
  | None => ret tt
  | Some gate =>
      Gate_Close gate;;
      modifyGateway (set_gates (delete addr))
  end.

(** [func (gateway *Gateway) AddProxy(proxy *Proxy) error] *)
Definition Gateway_AddProxy (proxy : ptr) : M (option Error) :=
  gw ← getGateway;
  listenTo ← Proxy_listenTo_Read proxy;
  match gates gw !! listenTo with
  | Some gate => Gate_AddProxy gate proxy
  | None =>
      listenTo ← Proxy_listenTo_Read proxy;
      r ← NewGate listenTo;
      match r with
      | inr err => ret (Some err)
      | inl gate =>
          r ← Gateway_AddGate gate;
          match r with
          | Some err => ret (Some err)
          | None =>
              r ← Gate_AddProxy gate proxy;
              match r with
              | Some err => ret (Some err)
              | None => ret None
              end
          end
      end
  end.

(** [func (gateway *Gateway) RemoveProxy(addr, domainName string)] *)
Definition Gateway_RemoveProxy (addr domainName : string) : M unit :=
  gw ← getGateway;
  match gates gw !! addr with
  | None => ret tt
  | Some gate => Gate_RemoveProxy gate domainName
  end.

(** The body of the loop of [ListenAndServe], for one gate:
[[
    loopGate := *gate
    gateway.wg.Add(1)
    go func() { ... loopGate.ListenAndServe() ...
                delete(gateway.gates, loopGate.listenTo); gateway.wg.Done() }()
]] *)
Definition serveGate (gate : ptr) : M unit :=
  loopGate ← readGate gate;
  wg_Add 1;;
  go {| task_gate := gate; task_listenTo := gate_listenTo loopGate |}.

(** [func (gateway *Gateway) ListenAndServe() error] *)
Definition Gateway_ListenAndServe : M (option Error) :=
  gw ← getGateway;
  logMsg (logger gw) InfoLevel [] None "Starting gateway";;
  gw ← getGateway;
  if decide (size (gates gw) ≤ 0) then ret (Some ErrNoGateInGateway)
  else
    modifyGateway (set_running true);;
    gw ← getGateway;
    forGates serveGate (map_to_list (gates gw));;
    wg_Wait;;
    modifyGateway (set_running false);;
    ret None.

(** [func (gateway *Gateway) Close()] *)
Definition Gateway_Close : M unit :=
  gw ← getGateway;
  forGates Gate_Close (map_to_list (gates gw)).

(** [func (gateway *Gateway) UpdateProxy(proxy *Proxy, cfg ProxyConfig) error] *)
Definition Gateway_UpdateProxy (proxy : ptr) (cfg : ProxyConfig) : M (option Error) :=
  listenTo ← Proxy_listenTo_Read proxy;
  if decide (ListenTo cfg = listenTo) then
    gw ← getGateway;
    listenTo ← Proxy_listenTo_Read proxy;
    match gates gw !! listenTo with
    | None => ret (Some ErrGateDoesNotExist)
    | Some gate => call_Gate_UpdateProxy gate proxy cfg
    end
  else
    gw ← getGateway;
    match gates gw !! ListenTo cfg with
    | None =>
        oldAddr ← Proxy_listenTo_Read proxy;
        oldDomainName ← Proxy_domainName_Read proxy;
        r ← Proxy_updateConfig proxy cfg;
        match r with
        | Some err => ret (Some err)
        | None =>
            r ← Gateway_AddProxy proxy;
            match r with
            | Some err => ret (Some err)
            | None =>
                Gateway_RemoveProxy oldAddr oldDomainName;;
                ret None
            end
        end
    | Some gate =>
        oldDomainName ← Proxy_domainName_Read proxy;
        r ← Proxy_updateConfig proxy cfg;
        match r with
        | Some err => ret (Some err)
        | None =>
            r ← Gate_AddProxy gate proxy;
            match r with
            | Some err => ret (Some err)
            | None =>
                Gate_RemoveProxy gate oldDomainName;;
                ret None
            end
        end
    end.

(** The function returned by [gateway.onConfigChange(proxy, vpr)], applied
    to an event. [logger.Err(err)] on the last line of the source builds an
    event that is never sent, so nothing is written there. *)
Definition Gateway_onConfigChange (proxy : ptr) (vpr : Viper) (ev : Event) : M unit :=
  if decide (event_Op ev ≠ fsnotify_Write) then ret tt
  else
    gw ← getGateway;
    let logger := Logger_With_Str (logger gw) "path" (event_Name ev) in
    logMsg logger InfoLevel [] None "Configuration changed";;
    r ← call_LoadProxyConfig vpr;
    match r with
    | inr err => logMsg logger ErrorLevel [] (Some err) "Failed to load configuration"
    | inl cfg =>
        _ ← Gateway_UpdateProxy proxy cfg;
        ret tt
    end.

(** ** Observations on a world *)

(** The route reachable under the binding (address, hostname): the proxy
    that the gate registered for the address holds under the hostname. *)
Definition route_at (w : World) (addr domainName : string) : option ptr :=
  match gates (gateway w) !! addr with
  | Some gate =>
      match gateObjs (heap w) !! gate with
      | Some G => gate_proxies G !! domainName
      | None => None
      end
  | None => None
  end.

(** The gate object registered for an address. *)
Definition gate_at (w : World) (addr : string) : option Gate :=
  match gates (gateway w) !! addr with
  | Some gate => gateObjs (heap w) !! gate
  | None => None
  end.

(** The gate as [AddGate] registers it: the gateway's outputs and logger
    pushed into it, its address and its routes untouched. *)
Definition registered (gw : Gateway) (G : Gate) : Gate :=
  with_logger (logger gw) (with_output (MultiWriter (loggerOutputs gw)) G).

(** World [s] differs from [w] at most in the entry of [gateway.gates] for
    [addr], in the gate object [g], and in what is neither a route nor a
    gate (wait group, goroutines, log). *)
Definition touches_only (addr : string) (g : ptr) (w s : World) : Prop :=
  proxyObjs (heap s) = proxyObjs (heap w) ∧
  (∀ a, a ≠ addr → gates (gateway s) !! a = gates (gateway w) !! a) ∧
  (∀ g', g' ≠ g → gateObjs (heap s) !! g' = gateObjs (heap w) !! g').

(** The route [proxy] is reachable under its old binding or under its new
    one. *)
Definition reachable_old_or_new (proxy : ptr) (oldAddr oldDomainName : string)
    (cfg : ProxyConfig) (s : World) : Prop :=
  route_at s oldAddr oldDomainName = Some proxy ∨
  route_at s (ListenTo cfg) (DomainName cfg) = Some proxy.


(** Go is memory safe: every gate the gateway holds is an object of the
    store. *)
Definition gates_allocated (w : World) : Prop :=
  map_Forall (λ _ g, is_Some (gateObjs (heap w) !! g)) (gates (gateway w)).

#[global] Instance reachable_old_or_new_dec proxy oldAddr oldDomainName cfg s :
  Decision (reachable_old_or_new proxy oldAddr oldDomainName cfg s).
Proof. unfold reachable_old_or_new. apply _. Defined.

#[global] Instance gates_allocated_dec w : Decision (gates_allocated w).
Proof. unfold gates_allocated. apply _. Defined.

End Infrared.

(** ** A deployment to run the model on

    Three routes, two listening addresses. The collaborators refuse an empty
    hostname and an empty address; a gate's own [UpdateProxy] applies the
    configuration to the route; the watched file holds [cfg_moved]; every
    accept loop ends at once without an error. *)

Definition cfg_a : ProxyConfig :=
  {| ListenTo := ":25565"; DomainName := "a.example.com"; ProxyTo := "10.0.0.1:25565" |}.
Definition cfg_b : ProxyConfig :=
  {| ListenTo := ":25566"; DomainName := "b.example.com"; ProxyTo := "10.0.0.2:25565" |}.
Definition cfg_c : ProxyConfig :=
  {| ListenTo := ":25565"; DomainName := "c.example.com"; ProxyTo := "10.0.0.3:25565" |}.

(** Route [a] moved to [:25566], hostname kept. *)
Definition cfg_moved : ProxyConfig :=
  {| ListenTo := ":25566"; DomainName := "a.example.com"; ProxyTo := "10.0.0.1:25565" |}.
(** Route [a] moved to [:25566] under a new hostname. *)
Definition cfg_renamed : ProxyConfig :=
  {| ListenTo := ":25566"; DomainName := "a2.example.com"; ProxyTo := "10.0.0.1:25565" |}.
(** Route [a] moved to [:25566] under the hostname route [b] has there. *)
Definition cfg_clash : ProxyConfig :=
  {| ListenTo := ":25566"; DomainName := "b.example.com"; ProxyTo := "10.0.0.1:25565" |}.
(** Route [a] moved to the empty address, for which no gate can be built. *)
Definition cfg_no_addr : ProxyConfig :=
  {| ListenTo := ""; DomainName := "a.example.com"; ProxyTo := "10.0.0.1:25565" |}.
(** Route [a] kept on [:25565] under a new hostname. *)
Definition cfg_same_addr : ProxyConfig :=
  {| ListenTo := ":25565"; DomainName := "a2.example.com"; ProxyTo := "10.0.0.1:25565" |}.

Definition demo_validate (cfg : ProxyConfig) : option Error :=
  if decide (DomainName cfg = "") then Some (ErrCollaborator "empty domain name")
  else None.

Definition demo : Collaborators :=
  {| validateConfig := demo_validate;
     checkListenTo addr :=
       if decide (addr = "") then Some (ErrCollaborator "empty listen address")
       else None;
     Gate_UpdateProxy gate proxy cfg s :=
       match gateObjs s !! gate, proxyObjs s !! proxy with
       | Some _, Some _ =>
           match demo_validate cfg with
           | Some err => Some (Some err, s)
           | None => Some (None, set_proxyObjs (<[proxy := configured cfg]>) s)
           end
       | _, _ => None
       end;
     LoadProxyConfig _ := inl cfg_moved;
     Gate_ListenAndServe _ := Some None |}.

Definition demo_proxies : gmap ptr Proxy :=
  {[ 1%positive := configured cfg_a;
     2%positive := configured cfg_b;
     3%positive := configured cfg_c ]}.

(** The gate [AddProxy] builds on a new gateway for one route. *)
Definition demo_gate (addr domainName : string) (proxy : ptr) : Gate :=
  set_gate_proxies (λ _, {[domainName := proxy]}) (registered NewGateway (new_gate addr)).

(** No gate yet. *)
Definition world_none : World :=
  {| heap := {| proxyObjs := demo_proxies; gateObjs := ∅ |};
     gateway := NewGateway; tasks := []; globalLevel := InfoLevel; io := [] |}.

(** Route [a] added: one gate, on [:25565]. *)
Definition world_one : World :=
  {| heap := {| proxyObjs := demo_proxies;
                gateObjs := {[ 1%positive := demo_gate ":25565" "a.example.com" 1 ]} |};
     gateway := set_gates (λ _, {[ ":25565" := 1%positive ]}) NewGateway;
     tasks := []; globalLevel := InfoLevel; io := [] |}.

(** Routes [a] and [b] added: two gates. *)
Definition world_two : World :=
  {| heap := {| proxyObjs := demo_proxies;
                gateObjs := {[ 1%positive := demo_gate ":25565" "a.example.com" 1;
                               2%positive := demo_gate ":25566" "b.example.com" 2 ]} |};
     gateway := set_gates (λ _, {[ ":25565" := 1%positive; ":25566" := 2%positive ]}) NewGateway;
     tasks := []; globalLevel := InfoLevel; io := [] |}.

(** [world_two] with two more gates built and not registered: one for
    [:25565], which is taken, one for [:25567], which is free. *)
Definition world_spare : World :=
  upd_gate 4 (new_gate ":25567") (upd_gate 3 (new_gate ":25565") world_two).

(** [world_one] after route [a] moved to [:25566]. *)
Definition world_moved : World :=
  {| heap := {| proxyObjs := <[1%positive := configured cfg_moved]> demo_proxies;
                gateObjs := {[ 1%positive := set_gate_proxies (λ _, ∅)
                                               (demo_gate ":25565" "a.example.com" 1);
                               2%positive := demo_gate ":25566" "a.example.com" 1 ]} |};
     gateway := set_gates (λ _, {[ ":25565" := 1%positive; ":25566" := 2%positive ]}) NewGateway;
     tasks := []; globalLevel := InfoLevel; io := [] |}.



(** ** The registry seen as a whole *)

(** Every gate is registered under the address it listens on, and is an
    object of the store. [AddGate] is the only place that writes
    [gateway.gates], and it writes [gateway.gates[gate.listenTo] = gate]. *)
Definition gates_keyed (w : World) : Prop :=
  map_Forall (λ addr gate, gate_listenTo <$> gateObjs (heap w) !! gate = Some addr)
             (gates (gateway w)).

#[global] Instance gates_keyed_dec w : Decision (gates_keyed w).
Proof. unfold gates_keyed. apply _. Defined.

(** The accept loop of the gate on [addr] ends. *)
Definition serving_ends `{C : Collaborators} (addr : string) : Prop :=
  is_Some (Gate_ListenAndServe addr).

#[global] Instance serving_ends_dec `{C : Collaborators} addr : Decision (serving_ends addr).
Proof. unfold serving_ends. apply _. Defined.

(** ** [ListenAndServe] and its goroutines, under every schedule

    [Gateway_ListenAndServe] above runs the goroutines one after another
    once the caller waits for them. The source leaves the schedule open:
    a goroutine may run while the caller still ranges over
    [gateway.gates], and the goroutines run alongside each other, all of
    them deleting from the map without a lock. The steps below are those of
    the caller and of every goroutine, taken in any order. *)

(** Where a serving goroutine is: in [loopGate.ListenAndServe()], past it
    and before [delete(gateway.gates, loopGate.listenTo)], or past the
    delete and before [gateway.wg.Done()]. *)
Inductive Stage : Type := Listening | Ended | Deleted.

#[global] Instance Stage_eq_dec : EqDecision Stage.
Proof. solve_decision. Defined.

(** A serving goroutine: the address of its copy [loopGate], and where it
    is. *)
Record Goroutine : Type := mkGoroutine {
  gr_listenTo : string;
  gr_stage : Stage
}.

(** Where the caller of [ListenAndServe] is: at the top of the function;
    in the range loop, with the entries the loop has yet to reach; in
    [wg.Wait()]; returned; or gone with the process, after a panic or a
    fatal error of the runtime. *)
Inductive Caller : Type :=
  | Entered
  | Ranging (pending : list (string * ptr))
  | Waiting
  | Returned (r : option Error)
  | Crashed.

Record Serving : Type := mkServing {
  caller : Caller;
  goroutines : list Goroutine;
  world : World
}.

(** The call as it starts in world [w], no goroutine being there. *)
Definition serving (w : World) : Serving :=
  {| caller := Entered; goroutines := []; world := w |}.

Definition pending_of (c : Caller) : list (string * ptr) :=
  match c with Ranging pending => pending | _ => [] end.

(** The range loop after a [delete(gateway.gates, addr)]: an entry that is
    removed before the loop reached it is not produced. *)
Definition after_delete (addr : string) (c : Caller) : Caller :=
  match c with
  | Ranging pending => Ranging (filter (λ entry, entry.1 ≠ addr) pending)
  | _ => c
  end.

Inductive serve_step `{C : Collaborators} : Serving → Serving → Prop :=
  (** [Info().Msgf("Starting gateway")], then [len(gateway.gates) <= 0] *)
  | serve_enter_empty gs w w0 :
      outcome (logMsg (logger (gateway w)) InfoLevel [] None "Starting gateway") w = Ret tt w0 →
      size (gates (gateway w0)) ≤ 0 →
      serve_step (mkServing Entered gs w)
                 (mkServing (Returned (Some ErrNoGateInGateway)) gs w0)
  (** ... else [gateway.running = true] and the range starts, in an order
      Go leaves open *)
  | serve_enter gs w w0 pending :
      outcome (logMsg (logger (gateway w)) InfoLevel [] None "Starting gateway") w = Ret tt w0 →
      ¬ size (gates (gateway w0)) ≤ 0 →
      pending ≡ₚ map_to_list (gates (gateway w0)) →
      serve_step (mkServing Entered gs w)
                 (mkServing (Ranging pending) gs (set_gateway (set_running true) w0))
  (** [loopGate := *gate; gateway.wg.Add(1); go func() { ... }()] *)
  | serve_spawn addr gate G rest gs w :
      gateObjs (heap w) !! gate = Some G →
      serve_step (mkServing (Ranging ((addr, gate) :: rest)) gs w)
                 (mkServing (Ranging rest)
                            (gs ++ [mkGoroutine (gate_listenTo G) Listening])
                            (set_gateway (set_wg (λ c, c + 1)) w))
  (** [*gate] on a nil pointer *)
  | serve_spawn_nil addr gate rest gs w :
      gateObjs (heap w) !! gate = None →
      serve_step (mkServing (Ranging ((addr, gate) :: rest)) gs w)
                 (mkServing Crashed gs w)
  (** the range is over: [gateway.wg.Wait()] *)
  | serve_range_end gs w :
      serve_step (mkServing (Ranging []) gs w) (mkServing Waiting gs w)
  (** [loopGate.ListenAndServe()] returns in a goroutine; [logger.Err(err)]
      writes nothing *)
  | serve_loop_end c gs1 addr gs2 w :
      c ≠ Crashed → serving_ends addr →
      serve_step (mkServing c (gs1 ++ mkGoroutine addr Listening :: gs2) w)
                 (mkServing c (gs1 ++ mkGoroutine addr Ended :: gs2) w)
  (** [delete(gateway.gates, loopGate.listenTo)] *)
  | serve_delete c gs1 addr gs2 w :
      c ≠ Crashed →
      serve_step (mkServing c (gs1 ++ mkGoroutine addr Ended :: gs2) w)
                 (mkServing (after_delete addr c)
                            (gs1 ++ mkGoroutine addr Deleted :: gs2)
                            (set_gateway (set_gates (delete addr)) w))
  (** ... which the runtime may end with a fatal error when it overlaps
      the caller's range over the map or the delete of another goroutine *)
  | serve_race c gs1 addr gs2 w :
      c ≠ Crashed →
      (∃ pending, c = Ranging pending) ∨ (∃ other, mkGoroutine other Ended ∈ gs1 ++ gs2) →
      serve_step (mkServing c (gs1 ++ mkGoroutine addr Ended :: gs2) w)
                 (mkServing Crashed (gs1 ++ mkGoroutine addr Ended :: gs2) w)
  (** [gateway.wg.Done()] *)
  | serve_done c gs1 addr gs2 w :
      c ≠ Crashed → wg (gateway w) ≠ 0 →
      serve_step (mkServing c (gs1 ++ mkGoroutine addr Deleted :: gs2) w)
                 (mkServing c (gs1 ++ gs2) (set_gateway (set_wg Nat.pred) w))
  (** ... which panics on a counter that would become negative *)
  | serve_done_negative c gs1 addr gs2 w :
      c ≠ Crashed → wg (gateway w) = 0 →
      serve_step (mkServing c (gs1 ++ mkGoroutine addr Deleted :: gs2) w)
                 (mkServing Crashed (gs1 ++ mkGoroutine addr Deleted :: gs2) w)
  (** [wg.Wait()] returns once the counter is zero; [gateway.running =
      false; return nil] *)
  | serve_return gs w :
      wg (gateway w) = 0 →
      serve_step (mkServing Waiting gs w)
                 (mkServing (Returned None) gs (set_gateway (set_running false) w)).

(** The addresses that still have their entry in [gateway.gates]: those the
    range has yet to reach and those of the goroutines that have not
    deleted theirs. *)
Definition held (gs : list Goroutine) : list string :=
  gr_listenTo <$> filter (λ g, gr_stage g ≠ Deleted) gs.

Definition keys_held (s : Serving) : list string :=
  (pending_of (caller s)).*1 ++ held (goroutines s).

(** What holds while the caller is in the loop, waiting, or has returned
    [nil]: the store is untouched, the wait group counts the goroutines,
    [gateway.gates] holds of its first entries exactly those whose address
    is held, and the gate of an accept loop that never ends is yet to be
    reached or is being served. *)
Definition serve_live `{C : Collaborators} (w : World) (s : Serving) : Prop :=
  heap (world s) = heap w ∧
  wg (gateway (world s)) = length (goroutines s) ∧
  running (gateway (world s)) = match caller s with Returned _ => false | _ => true end ∧
  (caller s = Returned None → goroutines s = []) ∧
  NoDup (keys_held s) ∧
  (∀ addr gate, (addr, gate) ∈ pending_of (caller s) →
                gates (gateway w) !! addr = Some gate) ∧
  (∀ addr, addr ∈ keys_held s →
           gates (gateway (world s)) !! addr = gates (gateway w) !! addr) ∧
  (∀ addr, addr ∉ keys_held s → gates (gateway (world s)) !! addr = None) ∧
  (∀ addr, is_Some (gates (gateway w) !! addr) → ¬ serving_ends addr →
           addr ∈ (pending_of (caller s)).*1 ∨ mkGoroutine addr Listening ∈ goroutines s).

(** What holds of the call in every state a schedule reaches from
    [serving w]. *)
Definition serve_inv `{C : Collaborators} (w : World) (s : Serving) : Prop :=
  match caller s with
  | Entered => s = serving w
  | Crashed => True
  | Returned (Some err) =>
      err = ErrNoGateInGateway ∧ goroutines s = [] ∧
      gates (gateway w) = ∅ ∧ gateway (world s) = gateway w ∧ heap (world s) = heap w
  | _ => serve_live w s
  end.

(** The shape of the gate methods the gateway calls on every gate
    ([Close], [AddLoggerOutput], [overrideLogger]): read the gate, write it
    back changed by [f]. *)
Definition gate_update (f : Gate → Gate) (gate : ptr) : M unit :=
  G ← readGate gate; writeGate gate (f G).

(** The gate objects after [f] was applied to the gate of every entry. *)
Definition updated_gates (f : Gate → Gate) (entries : list (string * ptr))
    (objs : gmap ptr Gate) : gmap ptr Gate :=
  foldl (λ m entry, alter f entry.2 m) objs entries.

(** What a line given to a logger adds to the output when the global
    level is [g]: the line, or nothing when zerolog drops it. *)
Definition emitted (g : Level) (l : Logger) (lvl : Level)
    (fields : list (string * string)) (err : option Error) (msg : string) :
    list IOEvent :=
  if decide (Level_rank g ≤ Level_rank lvl) then
    [Logged {| line_level := lvl; line_out := logger_out l;
               line_fields := logger_ctx l ++ fields;
               line_err := err; line_msg := msg |}]
  else [].

(** The deployment when the listener on [:25565] serves for ever and only
    the configuration file of handle [0] can be read. *)
Definition demo_serving : Collaborators :=
  {| validateConfig := demo_validate;
     checkListenTo := @checkListenTo demo;
     Gate_UpdateProxy := @Gate_UpdateProxy demo;
     LoadProxyConfig vpr :=
       if decide (vpr = 0) then inl cfg_moved
       else inr (ErrCollaborator "unreadable configuration");
     Gate_ListenAndServe addr := if decide (addr = ":25565") then None else Some None |}.

(** ** The command (cmd/infrared/main.go): settings from the environment
    and the command line *)

Definition envPrefix : string := "INFRARED_".
Definition envDebug : string := envPrefix +:+ "DEBUG".
Definition envColor : string := envPrefix +:+ "COLOR".
Definition envConfigPath : string := envPrefix +:+ "CONFIG_PATH".

(** The package variables [debug], [color] and [configPath]. *)
Record Settings : Type := mkSettings {
  debug : bool;
  color : bool;
  configPath : string
}.

(** Their initial values. *)
Definition initial_settings : Settings :=
  {| debug := false; color := true; configPath := "./configs" |}.

(** The environment of the process. [os.Getenv] gives the empty string for
    a variable that is not set. *)
Abbreviation Env := (gmap string string).

Definition os_Getenv (env : Env) (name : string) : string := default "" (env !! name).

(** [strconv.ParseBool]: it accepts 1, t, T, TRUE, true, True, 0, f, F,
    FALSE, false, False; any other string is an error. *)
Definition strconv_ParseBool (s : string) : option bool :=
  if decide (s ∈ ["1"; "t"; "T"; "TRUE"; "true"; "True"]) then Some true
  else if decide (s ∈ ["0"; "f"; "F"; "FALSE"; "false"; "False"]) then Some false
  else None.

(** [func envBool(name string, value bool) bool] *)
Definition envBool (env : Env) (name : string) (value : bool) : bool :=
  let envString := os_Getenv env name in
  if decide (envString = "") then value
  else
    match strconv_ParseBool envString with
    | None => value
    | Some envBool => envBool
    end.

(** [func envString(name string, value string) string] *)
Definition envString (env : Env) (name : string) (value : string) : string :=
  let envString := os_Getenv env name in
  if decide (envString = "") then value else envString.

(** [func initEnv()] *)
Definition initEnv (env : Env) (s : Settings) : Settings :=
  let s := {| debug := envBool env envDebug (debug s);
              color := color s; configPath := configPath s |} in
  let s := {| debug := debug s; color := envBool env envColor (color s);
              configPath := configPath s |} in
  {| debug := debug s; color := color s;
     configPath := envString env envConfigPath (configPath s) |}.

(** What [flag.Parse()] reads off a command line it accepts: for each of
    the flags [-debug], [-color] and [-config-path], the value given last,
    if the flag is given. (On a command line it rejects, [flag.Parse] ends
    the process.) *)
Record CommandLine : Type := mkCommandLine {
  clf_debug : option bool;
  clf_color : option bool;
  clf_configPath : option string
}.

(** [func initFlags()]: [flag.BoolVar(&debug, clfDebug, debug, ...)] takes
    the variable's current value as the default of the flag, and
    [flag.Parse()] then assigns the flags that are given. *)
Definition initFlags (args : CommandLine) (s : Settings) : Settings :=
  {| debug := default (debug s) (clf_debug args);
     color := default (color s) (clf_color args);
     configPath := default (configPath s) (clf_configPath args) |}.

Definition set_globalLevel (l : Level) (w : World) : World :=
  {| heap := heap w; gateway := gateway w; tasks := tasks w;
     globalLevel := l; io := io w |}.

Definition zerolog_SetGlobalLevel (l : Level) : M unit := modifyW (set_globalLevel l).

(** [func init()] of the command, from the settings the package variables
    hold. *)
Definition main_init (env : Env) (args : CommandLine) (s : Settings) : M Settings :=
  let s := initFlags args (initEnv env s) in
  zerolog_SetGlobalLevel InfoLevel;;
  (if debug s then zerolog_SetGlobalLevel DebugLevel else ret tt);;
  ret s.

(** An environment that asks for debug logging in a spelling [ParseBool]
    does not know, and a command line that gives one flag. *)
Definition env_demo : Env :=
  {[ "INFRARED_DEBUG" := "yes"; "INFRARED_COLOR" := "0";
     "INFRARED_CONFIG_PATH" := "/etc/infrared" ]}.

Definition args_demo : CommandLine :=
  {| clf_debug := None; clf_color := None; clf_configPath := Some "./routes" |}.

(** ** Running computations: the equations of the monad *)

Lemma after_trace_nil {B} (r : list World * Outcome B) : after_trace [] r = r.
Proof. by destruct r. Qed.

Lemma after_trace_pair {B} t t' (o : Outcome B) :
  after_trace t (t', o) = (t ++ t', o).
Proof. reflexivity. Qed.

Lemma after_trace_after_trace {B} t t' (r : list World * Outcome B) :
  after_trace t (after_trace t' r) = after_trace (t ++ t') r.
Proof. unfold after_trace; simpl. by rewrite app_assoc. Qed.

Lemma bind_run {A B} (m : M A) (k : A → M B) w t a w' :
  m w = (t, Ret a w') → bind m k w = after_trace t (k a w').
Proof. intros Hm. unfold bind. by rewrite Hm. Qed.

Lemma bind_run_Panic {A B} (m : M A) (k : A → M B) w t :
  m w = (t, Panic) → bind m k w = (t, Panic).
Proof. intros Hm. unfold bind. by rewrite Hm. Qed.

Lemma bind_run_Blocked {A B} (m : M A) (k : A → M B) w t w' :
  m w = (t, Blocked w') → bind m k w = (t, Blocked w').
Proof. intros Hm. unfold bind. by rewrite Hm. Qed.

Lemma bind_ret {A B} (a : A) (k : A → M B) w : bind (ret a) k w = k a w.
Proof. unfold bind, ret. apply after_trace_nil. Qed.

Lemma bind_assoc {A B D} (m : M A) (k : A → M B) (k' : B → M D) w :
  bind (bind m k) k' w = bind m (λ a, bind (k a) k') w.
Proof.
  unfold bind. destruct (m w) as [t [a w'| w' |]]; try reflexivity.
  destruct (k a w') as [t' [b w''| w'' |]]; unfold after_trace; simpl;
    try reflexivity.
  destruct (k' b w'') as [t'' o]. simpl. by rewrite app_assoc.
Qed.

Lemma bind_getW {B} (k : World → M B) w : bind getW k w = k w w.
Proof. unfold bind, getW. apply after_trace_nil. Qed.

Lemma bind_getGateway {B} (k : Gateway → M B) w :
  bind getGateway k w = k (gateway w) w.
Proof. unfold getGateway. by rewrite bind_assoc, bind_getW, bind_ret. Qed.

Lemma bind_modifyW {B} f (k : unit → M B) w :
  bind (modifyW f) k w = after_trace [f w] (k tt (f w)).
Proof. reflexivity. Qed.

Lemma bind_modifyGateway {B} f (k : unit → M B) w :
  bind (modifyGateway f) k w =
  after_trace [set_gateway f w] (k tt (set_gateway f w)).
Proof. reflexivity. Qed.

Lemma bind_panic {A B} (k : A → M B) w : bind panic k w = ([], Panic).
Proof. reflexivity. Qed.

Lemma bind_block {A B} (k : A → M B) w : bind block k w = ([], Blocked w).
Proof. reflexivity. Qed.

Lemma bind_readGate {B} g G (k : Gate → M B) w :
  gateObjs (heap w) !! g = Some G → bind (readGate g) k w = k G w.
Proof.
  intros HG. unfold readGate. rewrite bind_assoc, bind_getW, HG.
  apply bind_ret.
Qed.

Lemma bind_readGate_nil {B} g (k : Gate → M B) w :
  gateObjs (heap w) !! g = None → bind (readGate g) k w = ([], Panic).
Proof.
  intros HG. unfold readGate. rewrite bind_assoc, bind_getW, HG.
  apply bind_panic.
Qed.

Lemma bind_readProxy {B} p P (k : Proxy → M B) w :
  proxyObjs (heap w) !! p = Some P → bind (readProxy p) k w = k P w.
Proof.
  intros HP. unfold readProxy. rewrite bind_assoc, bind_getW, HP.
  apply bind_ret.
Qed.

Lemma bind_readProxy_nil {B} p (k : Proxy → M B) w :
  proxyObjs (heap w) !! p = None → bind (readProxy p) k w = ([], Panic).
Proof.
  intros HP. unfold readProxy. rewrite bind_assoc, bind_getW, HP.
  apply bind_panic.
Qed.

Lemma bind_writeGate {B} g G (k : unit → M B) w :
  bind (writeGate g G) k w = after_trace [upd_gate g G w] (k tt (upd_gate g G w)).
Proof. reflexivity. Qed.

Lemma bind_writeProxy {B} p P (k : unit → M B) w :
  bind (writeProxy p P) k w = after_trace [upd_proxy p P w] (k tt (upd_proxy p P w)).
Proof. reflexivity. Qed.

(** A call seen through its continuation: [m] followed by [ret]. *)
Lemma bind_ret_r {A} (m : M A) w : bind m ret w = m w.
Proof.
  unfold bind. destruct (m w) as [t [a w'| w' |]]; try reflexivity.
  unfold after_trace, ret; simpl. by rewrite app_nil_r.
Qed.

(** ** Symbolic execution *)

Ltac wsimp :=
  cbn [heap gateway tasks globalLevel io set_heap set_gateway set_tasks set_io
       gates wg running logger loggerOutputs set_gates set_wg set_running
       set_logger set_loggerOutputs
       proxyObjs gateObjs set_proxyObjs set_gateObjs upd_proxy upd_gate written
       gate_listenTo gate_proxies gate_closed gate_logger gate_loggerOutputs
       set_gate_proxies set_gate_closed set_gate_logger set_gate_loggerOutputs
       with_output with_logger new_gate configured
       proxy_listenTo proxy_domainName proxy_config
       task_gate task_listenTo fst snd] in *.

Ltac solve_lookup :=
  wsimp; rewrite ?lookup_insert_eq;
  first [ eassumption | reflexivity | by simplify_map_eq ].

(** One step of the call at the head of the goal. *)
Ltac mstep0 :=
  rewrite ?bind_assoc;
  first
    [ rewrite bind_ret
    | rewrite bind_getW
    | rewrite bind_getGateway
    | rewrite bind_modifyGateway
    | rewrite bind_writeGate
    | rewrite bind_writeProxy
    | rewrite bind_modifyW
    | erewrite bind_readGate by solve_lookup
    | erewrite bind_readProxy by solve_lookup
    | erewrite bind_readGate_nil by solve_lookup
    | erewrite bind_readProxy_nil by solve_lookup ];
  wsimp.

Ltac msteps := repeat mstep0.

(** ** The operations of the collaborating objects, path by path *)

Section Objects.
Context `{C : Collaborators}.

Lemma bind_Proxy_listenTo_Read {B} p P (k : string → M B) w :
  proxyObjs (heap w) !! p = Some P →
  bind (Proxy_listenTo_Read p) k w = k (proxy_listenTo P) w.
Proof. intros HP. unfold Proxy_listenTo_Read. by msteps. Qed.

Lemma bind_Proxy_domainName_Read {B} p P (k : string → M B) w :
  proxyObjs (heap w) !! p = Some P →
  bind (Proxy_domainName_Read p) k w = k (proxy_domainName P) w.
Proof. intros HP. unfold Proxy_domainName_Read. by msteps. Qed.

Lemma bind_Gate_listenTo {B} g G (k : string → M B) w :
  gateObjs (heap w) !! g = Some G →
  bind (Gate_listenTo g) k w = k (gate_listenTo G) w.
Proof. intros HG. unfold Gate_listenTo. by msteps. Qed.

Lemma bind_Proxy_updateConfig_ok {B} p P cfg (k : option Error → M B) w :
  proxyObjs (heap w) !! p = Some P → validateConfig cfg = None →
  bind (Proxy_updateConfig p cfg) k w =
  after_trace [upd_proxy p (configured cfg) w] (k None (upd_proxy p (configured cfg) w)).
Proof.
  intros HP Hv. unfold Proxy_updateConfig. msteps. rewrite Hv. by msteps.
Qed.

Lemma bind_Proxy_updateConfig_invalid {B} p P cfg err (k : option Error → M B) w :
  proxyObjs (heap w) !! p = Some P → validateConfig cfg = Some err →
  bind (Proxy_updateConfig p cfg) k w = k (Some err) w.
Proof.
  intros HP Hv. unfold Proxy_updateConfig. msteps. rewrite Hv. by msteps.
Qed.

Lemma bind_NewGate_ok {B} addr (k : ptr + Error → M B) w :
  checkListenTo addr = None →
  let g := fresh (dom (gateObjs (heap w))) in
  bind (NewGate addr) k w =
  after_trace [upd_gate g (new_gate addr) w] (k (inl g) (upd_gate g (new_gate addr) w)).
Proof. intros Hc g. unfold NewGate. rewrite Hc. by msteps. Qed.

Lemma bind_NewGate_fail {B} addr err (k : ptr + Error → M B) w :
  checkListenTo addr = Some err →
  bind (NewGate addr) k w = k (inr err) w.
Proof. intros Hc. unfold NewGate. rewrite Hc. by msteps. Qed.

Lemma fresh_gate_unallocated w :
  gateObjs (heap w) !! fresh (dom (gateObjs (heap w))) = None.
Proof. apply not_elem_of_dom, is_fresh. Qed.

Lemma bind_Gate_AddProxy_ok {B} g p G P (k : option Error → M B) w :
  gateObjs (heap w) !! g = Some G → proxyObjs (heap w) !! p = Some P →
  gate_proxies G !! proxy_domainName P = None →
  let G' := set_gate_proxies (<[proxy_domainName P := p]>) G in
  bind (Gate_AddProxy g p) k w = after_trace [upd_gate g G' w] (k None (upd_gate g G' w)).
Proof.
  intros HG HP Hh G'. unfold Gate_AddProxy, Proxy_domainName_Read.
  msteps. rewrite Hh. by msteps.
Qed.

Lemma bind_Gate_AddProxy_dup {B} g p G P q (k : option Error → M B) w :
  gateObjs (heap w) !! g = Some G → proxyObjs (heap w) !! p = Some P →
  gate_proxies G !! proxy_domainName P = Some q →
  bind (Gate_AddProxy g p) k w = k (Some ErrDuplicateHostname) w.
Proof.
  intros HG HP Hh. unfold Gate_AddProxy, Proxy_domainName_Read.
  msteps. rewrite Hh. by msteps.
Qed.

Lemma bind_Gate_AddProxy_nil {B} g p P (k : option Error → M B) w :
  gateObjs (heap w) !! g = None → proxyObjs (heap w) !! p = Some P →
  bind (Gate_AddProxy g p) k w = ([], Panic).
Proof.
  intros HG HP. unfold Gate_AddProxy, Proxy_domainName_Read. by msteps.
Qed.

Lemma bind_Gate_RemoveProxy_present {B} g G domainName q (k : unit → M B) w :
  gateObjs (heap w) !! g = Some G →
  gate_proxies G !! domainName = Some q →
  let G' := set_gate_proxies (delete domainName) G in
  bind (Gate_RemoveProxy g domainName) k w =
  after_trace [upd_gate g G' w] (k tt (upd_gate g G' w)).
Proof.
  intros HG Hh G'. unfold Gate_RemoveProxy. msteps. rewrite Hh. by msteps.
Qed.

Lemma bind_Gate_RemoveProxy_absent {B} g G domainName (k : unit → M B) w :
  gateObjs (heap w) !! g = Some G →
  gate_proxies G !! domainName = None →
  bind (Gate_RemoveProxy g domainName) k w = k tt w.
Proof.
  intros HG Hh. unfold Gate_RemoveProxy. msteps. rewrite Hh. by msteps.
Qed.

Lemma bind_Gate_Close {B} g G (k : unit → M B) w :
  gateObjs (heap w) !! g = Some G →
  bind (Gate_Close g) k w =
  after_trace [upd_gate g (set_gate_closed true G) w]
              (k tt (upd_gate g (set_gate_closed true G) w)).
Proof. intros HG. unfold Gate_Close. by msteps. Qed.

Lemma bind_Gate_AddLoggerOutput {B} g G out (k : unit → M B) w :
  gateObjs (heap w) !! g = Some G →
  bind (Gate_AddLoggerOutput g out) k w =
  after_trace [upd_gate g (with_output out G) w] (k tt (upd_gate g (with_output out G) w)).
Proof. intros HG. unfold Gate_AddLoggerOutput. by msteps. Qed.

Lemma bind_Gate_overrideLogger {B} g G l (k : unit → M B) w :
  gateObjs (heap w) !! g = Some G →
  bind (Gate_overrideLogger g l) k w =
  after_trace [upd_gate g (with_logger l G) w] (k tt (upd_gate g (with_logger l G) w)).
Proof. intros HG. unfold Gate_overrideLogger. by msteps. Qed.

Lemma bind_logMsg_written {B} l lvl fields err msg (k : unit → M B) w :
  Level_rank (globalLevel w) ≤ Level_rank lvl →
  bind (logMsg l lvl fields err msg) k w =
  after_trace [written l lvl fields err msg w] (k tt (written l lvl fields err msg w)).
Proof. intros Hl. unfold logMsg. msteps. rewrite decide_True by done. by msteps. Qed.

Lemma bind_logMsg_dropped {B} l lvl fields err msg (k : unit → M B) w :
  ¬ Level_rank (globalLevel w) ≤ Level_rank lvl →
  bind (logMsg l lvl fields err msg) k w = k tt w.
Proof. intros Hl. unfold logMsg. msteps. rewrite decide_False by done. by msteps. Qed.

End Objects.

Ltac mstep :=
  rewrite ?bind_assoc;
  first
    [ mstep0
    | erewrite bind_Gate_listenTo by solve_lookup
    | erewrite bind_Proxy_listenTo_Read by solve_lookup
    | erewrite bind_Proxy_domainName_Read by solve_lookup
    | erewrite bind_Gate_AddLoggerOutput by solve_lookup
    | erewrite bind_Gate_overrideLogger by solve_lookup
    | erewrite bind_Gate_Close by solve_lookup
    | erewrite bind_logMsg_written by (wsimp; assumption)
    | erewrite bind_logMsg_dropped by (wsimp; assumption) ];
  wsimp.

(** Closes [m w = (?t, Ret ?a ?w')] once the call has been run to its end. *)
Ltac mdone := cbn [after_trace ret app fst snd]; reflexivity.

(** ** The gateway, path by path *)

Section GatewayPaths.
Context `{C : Collaborators}.

Lemma touches_only_refl addr g w : touches_only addr g w w.
Proof. by repeat split. Qed.

Lemma touches_only_route addr g w s a domainName :
  touches_only addr g w s → a ≠ addr →
  (∀ ga, gates (gateway w) !! a = Some ga → ga ≠ g) →
  route_at s a domainName = route_at w a domainName.
Proof.
  intros (_ & Hgates & Hobjs) Ha Hne. unfold route_at.
  rewrite (Hgates a Ha).
  destruct (gates (gateway w) !! a) as [ga|]; [|done].
  by rewrite (Hobjs ga (Hne ga eq_refl)).
Qed.

Lemma run_Gateway_AddGate_dup gate G other w :
  gateObjs (heap w) !! gate = Some G →
  gates (gateway w) !! gate_listenTo G = Some other →
  Gateway_AddGate gate w = ([], Ret (Some ErrGateSignatureAlreadyRegistered) w).
Proof.
  intros HG Hdup. rewrite <- (bind_ret_r (Gateway_AddGate gate)).
  unfold Gateway_AddGate. repeat mstep. rewrite Hdup. by repeat mstep.
Qed.

Lemma run_Gateway_AddGate_fresh gate G w :
  gateObjs (heap w) !! gate = Some G →
  gates (gateway w) !! gate_listenTo G = None →
  ∃ t w', Gateway_AddGate gate w = (t, Ret None w') ∧
    gates (gateway w') = <[gate_listenTo G := gate]> (gates (gateway w)) ∧
    gateObjs (heap w') = <[gate := registered (gateway w) G]> (gateObjs (heap w)) ∧
    proxyObjs (heap w') = proxyObjs (heap w) ∧
    Forall (touches_only (gate_listenTo G) gate w) t.
Proof.
  intros HG Hfree.
  destruct (decide (Level_rank (globalLevel w) ≤ Level_rank DebugLevel)) as [Hl|Hl];
  destruct (running (gateway w)) eqn:Hrun;
  eexists _, _;
  (split; [
    rewrite <- (bind_ret_r (Gateway_AddGate gate));
    unfold Gateway_AddGate, wg_Add, go; repeat mstep; rewrite Hfree;
    repeat mstep; rewrite Hrun; cbn [negb]; repeat mstep; mdone |]).
  all: cbn [after_trace ret app fst snd]; wsimp; unfold registered.
  all: split; [done|]; split; [by rewrite insert_insert_eq|]; split; [done|].
  all: repeat constructor; wsimp; intros; by rewrite ?lookup_insert_ne.
Qed.

Lemma touches_only_trans addr g w s s' :
  touches_only addr g w s → touches_only addr g s s' → touches_only addr g w s'.
Proof.
  intros (Hp & Hg & Ho) (Hp' & Hg' & Ho'). repeat split.
  - by rewrite Hp'.
  - intros a Ha. by rewrite Hg', Hg.
  - intros g' Hne. by rewrite Ho', Ho.
Qed.

Lemma touches_only_upd_gate addr g G w : touches_only addr g w (upd_gate g G w).
Proof. repeat split; wsimp; intros; by rewrite ?lookup_insert_ne. Qed.

Lemma run_Gateway_AddProxy_delegates proxy P gate w :
  proxyObjs (heap w) !! proxy = Some P →
  gates (gateway w) !! proxy_listenTo P = Some gate →
  Gateway_AddProxy proxy w = Gate_AddProxy gate proxy w.
Proof.
  intros HP Hgate. rewrite <- (bind_ret_r (Gateway_AddProxy proxy)).
  unfold Gateway_AddProxy. repeat mstep. rewrite Hgate. apply bind_ret_r.
Qed.

Lemma run_Gateway_AddProxy_invalid proxy P err w :
  proxyObjs (heap w) !! proxy = Some P →
  gates (gateway w) !! proxy_listenTo P = None →
  checkListenTo (proxy_listenTo P) = Some err →
  Gateway_AddProxy proxy w = ([], Ret (Some err) w).
Proof.
  intros HP Hgate Hc. rewrite <- (bind_ret_r (Gateway_AddProxy proxy)).
  unfold Gateway_AddProxy. repeat mstep. rewrite Hgate. repeat mstep.
  rewrite ?bind_assoc. erewrite bind_NewGate_fail by done. by repeat mstep.
Qed.

(** The gate [AddProxy] leaves behind when it had to build one. *)
Lemma run_Gateway_AddProxy_new proxy P w :
  proxyObjs (heap w) !! proxy = Some P →
  gates (gateway w) !! proxy_listenTo P = None →
  checkListenTo (proxy_listenTo P) = None →
  ∃ t w', Gateway_AddProxy proxy w = (t, Ret None w') ∧
    gates (gateway w') =
      <[proxy_listenTo P := fresh (dom (gateObjs (heap w)))]> (gates (gateway w)) ∧
    gateObjs (heap w') =
      <[fresh (dom (gateObjs (heap w))) :=
          set_gate_proxies (<[proxy_domainName P := proxy]>)
            (registered (gateway w) (new_gate (proxy_listenTo P)))]>
        (gateObjs (heap w)) ∧
    proxyObjs (heap w') = proxyObjs (heap w) ∧
    Forall (touches_only (proxy_listenTo P) (fresh (dom (gateObjs (heap w)))) w) t.
Proof.
  intros HP Hgate Hc.
  set (g := fresh (dom (gateObjs (heap w)))).
  set (w1 := upd_gate g (new_gate (proxy_listenTo P)) w).
  destruct (run_Gateway_AddGate_fresh g (new_gate (proxy_listenTo P)) w1)
    as (t & w2 & Hrun & Hgates & Hobjs & Hprox & Htr).
  { subst w1. wsimp. apply lookup_insert_eq. }
  { done. }
  subst w1. wsimp.
  eexists _, _. split.
  { rewrite <- (bind_ret_r (Gateway_AddProxy proxy)).
    unfold Gateway_AddProxy. repeat mstep. rewrite Hgate. repeat mstep.
    rewrite ?bind_assoc. erewrite bind_NewGate_ok by done. rewrite ?bind_assoc.
    fold g. erewrite (bind_run _ _ _ _ _ _ Hrun). repeat mstep.
    rewrite ?bind_assoc.
    erewrite bind_Gate_AddProxy_ok;
      [ | rewrite Hobjs; apply lookup_insert_eq | by rewrite Hprox | done ].
    repeat mstep. mdone. }
  cbn [after_trace ret app fst snd]. wsimp.
  split; [done|]. split; [by rewrite Hobjs, !insert_insert_eq|].
  split; [done|].
  constructor; [apply touches_only_upd_gate|].
  apply Forall_app. split.
  - eapply Forall_impl; [exact Htr|]. intros s Hs.
    eapply touches_only_trans; [apply touches_only_upd_gate | exact Hs].
  - constructor; [|constructor].
    repeat split; wsimp.
    + done.
    + intros a Ha. by rewrite Hgates, lookup_insert_ne.
    + intros g' Hne. by rewrite lookup_insert_ne, Hobjs, !lookup_insert_ne.
Qed.

Lemma run_Gateway_RemoveProxy_no_gate addr domainName w :
  gates (gateway w) !! addr = None →
  Gateway_RemoveProxy addr domainName w = ([], Ret tt w).
Proof.
  intros Hgate. rewrite <- (bind_ret_r (Gateway_RemoveProxy addr domainName)).
  unfold Gateway_RemoveProxy. repeat mstep. rewrite Hgate. by repeat mstep.
Qed.

Lemma run_Gateway_RemoveProxy_gate addr domainName gate w :
  gates (gateway w) !! addr = Some gate →
  Gateway_RemoveProxy addr domainName w = Gate_RemoveProxy gate domainName w.
Proof.
  intros Hgate. rewrite <- (bind_ret_r (Gateway_RemoveProxy addr domainName)).
  unfold Gateway_RemoveProxy. repeat mstep. rewrite Hgate. apply bind_ret_r.
Qed.

Lemma run_Gate_RemoveProxy_present gate G domainName q w :
  gateObjs (heap w) !! gate = Some G →
  gate_proxies G !! domainName = Some q →
  Gate_RemoveProxy gate domainName w =
  ([upd_gate gate (set_gate_proxies (delete domainName) G) w],
   Ret tt (upd_gate gate (set_gate_proxies (delete domainName) G) w)).
Proof.
  intros HG Hq. rewrite <- (bind_ret_r (Gate_RemoveProxy gate domainName)).
  by erewrite bind_Gate_RemoveProxy_present.
Qed.

Lemma run_Gate_RemoveProxy_absent gate G domainName w :
  gateObjs (heap w) !! gate = Some G →
  gate_proxies G !! domainName = None →
  Gate_RemoveProxy gate domainName w = ([], Ret tt w).
Proof.
  intros HG Hq. rewrite <- (bind_ret_r (Gate_RemoveProxy gate domainName)).
  by erewrite bind_Gate_RemoveProxy_absent.
Qed.

Lemma run_Gate_RemoveProxy_nil gate domainName w :
  gateObjs (heap w) !! gate = None →
  Gate_RemoveProxy gate domainName w = ([], Panic).
Proof.
  intros HG. rewrite <- (bind_ret_r (Gate_RemoveProxy gate domainName)).
  unfold Gate_RemoveProxy. by repeat mstep.
Qed.

(** *** [UpdateProxy], branch by branch *)

(** Same address, lines 214-221. *)
Lemma run_Gateway_UpdateProxy_same_no_gate proxy P cfg w :
  proxyObjs (heap w) !! proxy = Some P →
  ListenTo cfg = proxy_listenTo P →
  gates (gateway w) !! proxy_listenTo P = None →
  Gateway_UpdateProxy proxy cfg w = ([], Ret (Some ErrGateDoesNotExist) w).
Proof.
  intros HP Heq Hgate. rewrite <- (bind_ret_r (Gateway_UpdateProxy proxy cfg)).
  unfold Gateway_UpdateProxy. repeat mstep. rewrite decide_True by done.
  repeat mstep. rewrite Hgate. by repeat mstep.
Qed.

Lemma run_Gateway_UpdateProxy_same_gate proxy P cfg gate w :
  proxyObjs (heap w) !! proxy = Some P →
  ListenTo cfg = proxy_listenTo P →
  gates (gateway w) !! proxy_listenTo P = Some gate →
  Gateway_UpdateProxy proxy cfg w = call_Gate_UpdateProxy gate proxy cfg w.
Proof.
  intros HP Heq Hgate. rewrite <- (bind_ret_r (Gateway_UpdateProxy proxy cfg)).
  unfold Gateway_UpdateProxy. repeat mstep. rewrite decide_True by done.
  repeat mstep. rewrite Hgate. apply bind_ret_r.
Qed.

(** Another address, [updateConfig] refuses: lines 228-230 and 242-244. *)
Lemma run_Gateway_UpdateProxy_invalid proxy P cfg err w :
  proxyObjs (heap w) !! proxy = Some P →
  ListenTo cfg ≠ proxy_listenTo P →
  validateConfig cfg = Some err →
  Gateway_UpdateProxy proxy cfg w = ([], Ret (Some err) w).
Proof.
  intros HP Hne Hv. rewrite <- (bind_ret_r (Gateway_UpdateProxy proxy cfg)).
  unfold Gateway_UpdateProxy. repeat mstep. rewrite decide_False by done.
  repeat mstep.
  destruct (gates (gateway w) !! ListenTo cfg); repeat mstep;
    rewrite ?bind_assoc; erewrite bind_Proxy_updateConfig_invalid by done;
    by repeat mstep.
Qed.

(** Another address with no gate yet, lines 224-237: the route is
    reconfigured, [gateway.AddProxy] runs, and only if it succeeded
    [gateway.RemoveProxy(oldAddr, oldDomainName)] runs. *)
Lemma run_Gateway_UpdateProxy_no_gate proxy P cfg w :
  proxyObjs (heap w) !! proxy = Some P →
  ListenTo cfg ≠ proxy_listenTo P →
  gates (gateway w) !! ListenTo cfg = None →
  validateConfig cfg = None →
  Gateway_UpdateProxy proxy cfg w =
  after_trace [upd_proxy proxy (configured cfg) w]
    (bind (Gateway_AddProxy proxy)
       (λ r, match r with
             | Some err => ret (Some err)
             | None =>
                 bind (Gateway_RemoveProxy (proxy_listenTo P) (proxy_domainName P))
                      (λ _, ret None)
             end)
       (upd_proxy proxy (configured cfg) w)).
Proof.
  intros HP Hne Hgate Hv.
  unfold Gateway_UpdateProxy. repeat mstep. rewrite decide_False by done.
  repeat mstep. rewrite Hgate. repeat mstep.
  by erewrite bind_Proxy_updateConfig_ok.
Qed.

(** Another address whose gate exists, lines 240-251: the route is
    reconfigured, the gate found for the new address takes it, and only if
    it did, [RemoveProxy(oldDomainName)] runs on that same gate. *)
Lemma run_Gateway_UpdateProxy_gate proxy P cfg gate w :
  proxyObjs (heap w) !! proxy = Some P →
  ListenTo cfg ≠ proxy_listenTo P →
  gates (gateway w) !! ListenTo cfg = Some gate →
  validateConfig cfg = None →
  Gateway_UpdateProxy proxy cfg w =
  after_trace [upd_proxy proxy (configured cfg) w]
    (bind (Gate_AddProxy gate proxy)
       (λ r, match r with
             | Some err => ret (Some err)
             | None => bind (Gate_RemoveProxy gate (proxy_domainName P)) (λ _, ret None)
             end)
       (upd_proxy proxy (configured cfg) w)).
Proof.
  intros HP Hne Hgate Hv.
  unfold Gateway_UpdateProxy. repeat mstep. rewrite decide_False by done.
  repeat mstep. rewrite Hgate. repeat mstep.
  by erewrite bind_Proxy_updateConfig_ok.
Qed.

(** *** Routes under updates of the store *)


Lemma route_at_upd_gate_same g G w addr domainName :
  gates (gateway w) !! addr = Some g →
  route_at (upd_gate g G w) addr domainName = gate_proxies G !! domainName.
Proof. intros Hg. unfold route_at. wsimp. by rewrite Hg, lookup_insert_eq. Qed.

Lemma route_at_upd_gate_other g G w addr domainName g' :
  gates (gateway w) !! addr = Some g' → g' ≠ g →
  route_at (upd_gate g G w) addr domainName = route_at w addr domainName.
Proof.
  intros Hg Hne. unfold route_at. wsimp. by rewrite Hg, lookup_insert_ne.
Qed.

Lemma route_at_Some_inv w addr domainName p :
  route_at w addr domainName = Some p →
  ∃ g G, gates (gateway w) !! addr = Some g ∧ gateObjs (heap w) !! g = Some G ∧
         gate_proxies G !! domainName = Some p.
Proof.
  unfold route_at. intros Hr.
  destruct (gates (gateway w) !! addr) as [g|]; [|done].
  destruct (gateObjs (heap w) !! g) as [G|] eqn:HG; [|done]. eauto.
Qed.

End GatewayPaths.

(** ** The claims about the registry *)

Section Registry.
Context `{C : Collaborators}.

(** C7. [RemoveGate(addr)] and [RemoveProxy(addr, domainName)] on an address
    for which the gateway holds no gate are no-ops: each returns (neither
    has an error result), leaves the world, and with it the gateway and
    every gate, exactly as it was, and passes through no other state. *)
Theorem RemoveGate_RemoveProxy_unknown_address_noop (addr domainName : string) (w : World) :
  gates (gateway w) !! addr = None →
  Gateway_RemoveGate addr w = ([], Ret tt w) ∧
  Gateway_RemoveProxy addr domainName w = ([], Ret tt w).
Proof.
  intros Hnone. split.
  - unfold Gateway_RemoveGate. repeat mstep. by rewrite Hnone.
  - by apply run_Gateway_RemoveProxy_no_gate.
Qed.

(** C6. [AddGate(gate)]: when the gate's address is already a key of
    [gateway.gates] the call returns [ErrGateSignatureAlreadyRegistered] and
    the world is untouched (so are the keys of [gateway.gates] and the gate
    passed in); when the address is free the call returns [nil] and the
    gate, with its address and routes as they were, is the entry of
    [gateway.gates] for that address, the other entries being kept. *)
Theorem AddGate_registered_or_inserted (gate : ptr) (G : Gate) (w : World) :
  gateObjs (heap w) !! gate = Some G →
  (is_Some (gates (gateway w) !! gate_listenTo G) →
     Gateway_AddGate gate w = ([], Ret (Some ErrGateSignatureAlreadyRegistered) w)) ∧
  (gates (gateway w) !! gate_listenTo G = None →
     ∃ w', outcome (Gateway_AddGate gate) w = Ret None w' ∧
       gates (gateway w') = <[gate_listenTo G := gate]> (gates (gateway w)) ∧
       dom (gates (gateway w')) = {[gate_listenTo G]} ∪ dom (gates (gateway w)) ∧
       gate_at w' (gate_listenTo G) = Some (registered (gateway w) G) ∧
       gate_listenTo (registered (gateway w) G) = gate_listenTo G ∧
       gate_proxies (registered (gateway w) G) = gate_proxies G).
Proof.
  intros HG. split.
  - intros [other Hdup]. by eapply run_Gateway_AddGate_dup.
  - intros Hfree.
    destruct (run_Gateway_AddGate_fresh gate G w HG Hfree)
      as (t & w' & Hrun & Hgates & Hobjs & _ & _).
    exists w'. unfold outcome, gate_at. rewrite Hrun, Hgates, Hobjs. simpl.
    rewrite dom_insert_L, !lookup_insert_eq. done.
Qed.

(** C9. The handler installed by [onConfigChange] returns at once on an
    event whose [Op] is not exactly [fsnotify.Write] (a create, a rename, a
    remove, or a write combined with another bit): whatever the
    collaborators would answer, it passes through no state and ends in the
    world it started in, so nothing was logged, no configuration was loaded
    and [UpdateProxy] did not run. *)
Theorem onConfigChange_ignores_other_ops (proxy : ptr) (vpr : Viper) (ev : Event) (w : World) :
  event_Op ev ≠ fsnotify_Write →
  Gateway_onConfigChange proxy vpr ev w = ([], Ret tt w).
Proof.
  intros Hop. unfold Gateway_onConfigChange. by rewrite decide_True.
Qed.

(** On a write event the same handler does log, load the configuration
    and, when loading succeeded, run [UpdateProxy] with it. *)
Lemma onConfigChange_write (proxy : ptr) (vpr : Viper) (ev : Event) (w : World) :
  event_Op ev = fsnotify_Write →
  Gateway_onConfigChange proxy vpr ev w =
  bind (logMsg (Logger_With_Str (logger (gateway w)) "path" (event_Name ev))
          InfoLevel [] None "Configuration changed")
    (λ _, bind (call_LoadProxyConfig vpr)
       (λ r, match r with
             | inr err =>
                 logMsg (Logger_With_Str (logger (gateway w)) "path" (event_Name ev))
                   ErrorLevel [] (Some err) "Failed to load configuration"
             | inl cfg => bind (Gateway_UpdateProxy proxy cfg) (λ _, ret tt)
             end)) w.
Proof.
  intros Hop. unfold Gateway_onConfigChange.
  rewrite decide_False by (by intros []). by rewrite bind_getGateway.
Qed.

Lemma call_Gate_UpdateProxy_gateway gate proxy cfg w :
  Forall (λ s, gateway s = gateway w) (visited (call_Gate_UpdateProxy gate proxy cfg) w) ∧
  ∀ r w', outcome (call_Gate_UpdateProxy gate proxy cfg) w = Ret r w' →
          gateway w' = gateway w.
Proof.
  unfold visited, outcome, call_Gate_UpdateProxy.
  destruct (Gate_UpdateProxy gate proxy cfg (heap w)) as [[r s]|]; simpl.
  - split; [by repeat constructor|]. by intros ?? [= _ <-].
  - split; [constructor|]. by intros ??.
Qed.

(** C4. [UpdateProxy(proxy, cfg)] when [cfg.ListenTo] is the address the
    route reports: with no gate registered for that address the call
    returns [ErrGateDoesNotExist] and touches nothing; with a gate
    registered the call is that gate's [UpdateProxy(proxy, cfg)], whatever
    that method does; and in every state the call passes through and in the
    state it ends in, the gateway, and so its map of gates, is the one it
    started with. *)
Theorem UpdateProxy_same_address (proxy : ptr) (P : Proxy) (cfg : ProxyConfig) (w : World) :
  proxyObjs (heap w) !! proxy = Some P →
  ListenTo cfg = proxy_listenTo P →
  (gates (gateway w) !! proxy_listenTo P = None →
     Gateway_UpdateProxy proxy cfg w = ([], Ret (Some ErrGateDoesNotExist) w)) ∧
  (∀ gate, gates (gateway w) !! proxy_listenTo P = Some gate →
     Gateway_UpdateProxy proxy cfg w = call_Gate_UpdateProxy gate proxy cfg w) ∧
  Forall (λ s, gates (gateway s) = gates (gateway w))
         (visited (Gateway_UpdateProxy proxy cfg) w) ∧
  (∀ r w', outcome (Gateway_UpdateProxy proxy cfg) w = Ret r w' →
     gates (gateway w') = gates (gateway w)).
Proof.
  intros HP Heq.
  split; [by apply run_Gateway_UpdateProxy_same_no_gate|].
  split; [intros gate Hgate; by eapply run_Gateway_UpdateProxy_same_gate|].
  unfold visited, outcome.
  destruct (gates (gateway w) !! proxy_listenTo P) as [gate|] eqn:Hgate.
  - rewrite (run_Gateway_UpdateProxy_same_gate _ _ _ _ _ HP Heq Hgate).
    destruct (call_Gate_UpdateProxy_gateway gate proxy cfg w) as [Hv Ho].
    split.
    + eapply Forall_impl; [exact Hv|]. by intros s ->.
    + intros r w' Hr. by rewrite (Ho r w' Hr).
  - rewrite (run_Gateway_UpdateProxy_same_no_gate _ _ _ _ HP Heq Hgate). simpl.
    split; [constructor|]. by intros ?? [= _ <-].
Qed.

Lemma Gate_AddProxy_gateway gate proxy w :
  Forall (λ s, gateway s = gateway w) (visited (Gate_AddProxy gate proxy) w) ∧
  ∀ r w', outcome (Gate_AddProxy gate proxy) w = Ret r w' → gateway w' = gateway w.
Proof.
  unfold visited, outcome. rewrite <- (bind_ret_r (Gate_AddProxy gate proxy)).
  destruct (proxyObjs (heap w) !! proxy) as [P|] eqn:HP.
  - destruct (gateObjs (heap w) !! gate) as [G|] eqn:HG.
    + destruct (gate_proxies G !! proxy_domainName P) as [q|] eqn:Hq.
      * erewrite bind_Gate_AddProxy_dup by done. simpl.
        split; [constructor|]. by intros ?? [= _ <-].
      * erewrite bind_Gate_AddProxy_ok by done. simpl.
        split; [by repeat constructor|]. by intros ?? [= _ <-].
    + erewrite bind_Gate_AddProxy_nil by done. simpl.
      split; [constructor|]. by intros ??.
  - unfold Gate_AddProxy, Proxy_domainName_Read. repeat mstep. simpl.
    split; [constructor|]. by intros ??.
Qed.

(** C8. [AddProxy(proxy)] for a route that reports address [A] and
    hostname [H]. With no gate registered for [A]: the call succeeds exactly
    when [NewGate(A)] does, and a successful call ends in a world where
    [gateway.gates] is the old map with the one new entry [A], bound to a
    gate object that did not exist before, that listens on [A] and whose
    only route is [proxy] under [H]; the number of gates grew by one. With a
    gate registered for [A]: the call is that gate's [AddProxy(proxy)], and
    the gateway, so its map of gates and their number, stays as it was
    throughout. *)
Theorem AddProxy_creates_one_gate_or_delegates (proxy : ptr) (P : Proxy) (w : World) :
  proxyObjs (heap w) !! proxy = Some P →
  (gates (gateway w) !! proxy_listenTo P = None →
     (checkListenTo (proxy_listenTo P) = None ↔
        ∃ w', outcome (Gateway_AddProxy proxy) w = Ret None w') ∧
     ∀ w', outcome (Gateway_AddProxy proxy) w = Ret None w' →
       ∃ gate G,
         gateObjs (heap w) !! gate = None ∧
         gates (gateway w') = <[proxy_listenTo P := gate]> (gates (gateway w)) ∧
         size (gates (gateway w')) = S (size (gates (gateway w))) ∧
         gate_at w' (proxy_listenTo P) = Some G ∧
         gate_listenTo G = proxy_listenTo P ∧
         gate_proxies G = {[proxy_domainName P := proxy]} ∧
         route_at w' (proxy_listenTo P) (proxy_domainName P) = Some proxy) ∧
  (∀ gate, gates (gateway w) !! proxy_listenTo P = Some gate →
     Gateway_AddProxy proxy w = Gate_AddProxy gate proxy w ∧
     Forall (λ s, gates (gateway s) = gates (gateway w))
            (visited (Gateway_AddProxy proxy) w) ∧
     ∀ r w', outcome (Gateway_AddProxy proxy) w = Ret r w' →
       gates (gateway w') = gates (gateway w) ∧
       size (gates (gateway w')) = size (gates (gateway w))).
Proof.
  intros HP. split.
  - intros Hnone.
    destruct (checkListenTo (proxy_listenTo P)) as [err|] eqn:Hc.
    + unfold outcome.
      rewrite (run_Gateway_AddProxy_invalid _ _ _ _ HP Hnone Hc). simpl.
      split; [split; [done|by intros [? ?]]|]. by intros ??.
    + destruct (run_Gateway_AddProxy_new _ _ _ HP Hnone Hc)
        as (t & w1 & Hrun & Hgates & Hobjs & _ & _).
      unfold outcome. rewrite Hrun. simpl.
      split; [split; [by eauto|done]|].
      intros w' [= <-]. eexists _, _.
      split; [apply fresh_gate_unallocated|].
      split; [exact Hgates|].
      split; [rewrite Hgates; by apply map_size_insert_None|].
      unfold gate_at, route_at. rewrite Hgates, Hobjs, !lookup_insert_eq.
      split; [done|]. split; [done|]. split; [done|].
      wsimp. apply lookup_insert_eq.
  - intros gate Hgate.
    pose proof (run_Gateway_AddProxy_delegates _ _ _ _ HP Hgate) as Hrun.
    split; [done|].
    destruct (Gate_AddProxy_gateway gate proxy w) as [Hv Ho].
    unfold visited, outcome in *. rewrite Hrun. split.
    + eapply Forall_impl; [exact Hv|]. by intros s ->.
    + intros r w' Hr. by rewrite (Ho r w' Hr).
Qed.

Lemma outcome_bind_Ret {A B} (m : M A) (k : A → M B) w r w' :
  outcome (bind m k) w = Ret r w' →
  ∃ a w1, outcome m w = Ret a w1 ∧ outcome (k a) w1 = Ret r w'.
Proof.
  unfold outcome, bind.
  destruct (m w) as [t [a w1| w1 |]]; simpl; try done.
  intros Hk. by exists a, w1.
Qed.

(** C5. [ListenAndServe()] on a gateway with no gate returns
    [ErrNoGateInGateway]: it returns (it does not block on the wait group
    and starts no goroutine) and leaves the gateway as it was, its map of
    gates and its [running] flag included, so a gateway that was not
    running is still not running; only the line "Starting gateway" may have
    been logged. And [ErrNoGateInGateway] on an empty gateway is the only
    error the call ever returns. *)
Theorem ListenAndServe_without_gates (w : World) :
  (size (gates (gateway w)) = 0 →
     ∃ t w', Gateway_ListenAndServe w = (t, Ret (Some ErrNoGateInGateway) w') ∧
       gateway w' = gateway w ∧ heap w' = heap w ∧ tasks w' = tasks w ∧
       (running (gateway w) = false → running (gateway w') = false) ∧
       Forall (λ s, gateway s = gateway w ∧ tasks s = tasks w) t) ∧
  (∀ err w', outcome Gateway_ListenAndServe w = Ret (Some err) w' →
     err = ErrNoGateInGateway ∧ size (gates (gateway w)) = 0).
Proof.
  split.
  - intros Hsize.
    destruct (decide (Level_rank (globalLevel w) ≤ Level_rank InfoLevel)) as [Hl|Hl];
      eexists _, _;
      (split; [unfold Gateway_ListenAndServe; repeat mstep;
               rewrite decide_True by lia; mdone|]);
      wsimp; repeat split; try done; by repeat constructor.
  - intros err w'. unfold Gateway_ListenAndServe, outcome.
    destruct (decide (Level_rank (globalLevel w) ≤ Level_rank InfoLevel)) as [Hl|Hl];
      repeat mstep;
      (destruct (decide (size (gates (gateway w)) ≤ 0)) as [Hs|Hs];
       [ cbn [after_trace ret app fst snd]; intros [= <- _]; split; [done|lia] | ]).
    all: intros Hret; exfalso; revert Hret.
    all: cbn [after_trace snd]; rewrite <- !bind_assoc.
    all: intros Hret; apply outcome_bind_Ret in Hret as (? & ? & _ & Hret).
    all: by vm_compute in Hret.
Qed.

(** C10. [UpdateProxy(proxy, cfg)] that changes the address is not undone
    when adding the route fails. If [updateConfig] accepts [cfg] and the
    call returns an error, then that error is the one of the add step
    ([gateway.AddProxy] when no gate exists for the new address, the target
    gate's [AddProxy] otherwise), which ran on the reconfigured route; the
    call passed through one state only and ended in it: the world it
    started in, with the route reporting the new address and hostname, and
    with the gateway and every gate as before, so that the route is bound
    exactly where it was bound, under its old key. *)
Theorem UpdateProxy_failed_add_keeps_old_binding (proxy : ptr) (P : Proxy)
    (cfg : ProxyConfig) (w w' : World) (err : Error) :
  proxyObjs (heap w) !! proxy = Some P →
  ListenTo cfg ≠ proxy_listenTo P →
  validateConfig cfg = None →
  outcome (Gateway_UpdateProxy proxy cfg) w = Ret (Some err) w' →
  w' = upd_proxy proxy (configured cfg) w ∧
  Gateway_UpdateProxy proxy cfg w = ([w'], Ret (Some err) w') ∧
  match gates (gateway w) !! ListenTo cfg with
  | None => Gateway_AddProxy proxy w' = ([], Ret (Some err) w')
  | Some gate => Gate_AddProxy gate proxy w' = ([], Ret (Some err) w')
  end ∧
  proxyObjs (heap w') !! proxy = Some (configured cfg) ∧
  gateway w' = gateway w ∧ gateObjs (heap w') = gateObjs (heap w) ∧
  (∀ addr domainName, route_at w' addr domainName = route_at w addr domainName).
Proof.
  intros HP Hne Hv. unfold outcome.
  set (w1 := upd_proxy proxy (configured cfg) w).
  assert (HP1 : proxyObjs (heap w1) !! proxy = Some (configured cfg))
    by (subst w1; wsimp; apply lookup_insert_eq).
  assert (Hfacts : proxyObjs (heap w1) !! proxy = Some (configured cfg) ∧
            gateway w1 = gateway w ∧ gateObjs (heap w1) = gateObjs (heap w) ∧
            ∀ addr domainName, route_at w1 addr domainName = route_at w addr domainName)
    by done.
  destruct (gates (gateway w) !! ListenTo cfg) as [gate|] eqn:Hgate.
  - rewrite (run_Gateway_UpdateProxy_gate _ _ _ _ _ HP Hne Hgate Hv). fold w1.
    destruct (gateObjs (heap w) !! gate) as [G|] eqn:HG.
    + destruct (gate_proxies G !! DomainName cfg) as [q|] eqn:Hq.
      * assert (Hadd : Gate_AddProxy gate proxy w1 = ([], Ret (Some ErrDuplicateHostname) w1)).
        { rewrite <- (bind_ret_r (Gate_AddProxy gate proxy)).
          by erewrite bind_Gate_AddProxy_dup. }
        erewrite (bind_run _ _ _ _ _ _ Hadd). simpl. by intros [= <- <-].
      * erewrite bind_Gate_AddProxy_ok by done.
        cbn [after_trace snd]. intros Hret.
        apply outcome_bind_Ret in Hret as (? & ? & _ & Hret). by vm_compute in Hret.
    + erewrite bind_Gate_AddProxy_nil by done. by simpl.
  - rewrite (run_Gateway_UpdateProxy_no_gate _ _ _ _ HP Hne Hgate Hv). fold w1.
    destruct (checkListenTo (ListenTo cfg)) as [e|] eqn:Hc.
    + assert (Hadd : Gateway_AddProxy proxy w1 = ([], Ret (Some e) w1))
        by (by eapply run_Gateway_AddProxy_invalid).
      erewrite (bind_run _ _ _ _ _ _ Hadd). simpl. by intros [= <- <-].
    + destruct (run_Gateway_AddProxy_new proxy (configured cfg) w1)
        as (t & w2 & Hrun & _); [done..|].
      erewrite (bind_run _ _ _ _ _ _ Hrun).
      cbn [after_trace snd]. intros Hret.
      apply outcome_bind_Ret in Hret as (? & ? & _ & Hret). by vm_compute in Hret.
Qed.


(** C2. [UpdateProxy(proxy, cfg)] towards an address for which no gate is
    registered yet. A call that returns [nil] ends in a world where a gate
    is registered for the new address, listens on it and holds the route,
    and only it, under the new hostname; the route reports [cfg]; and the
    gate of the old address, if there is one, has no route under the old
    hostname. The call is [updateConfig], then [gateway.AddProxy], then
    [gateway.RemoveProxy(oldAddr, oldDomainName)], in this order: when
    [AddProxy] has returned the new binding is in place while the old
    binding is still what it was at the start, in that state and in every
    state before it. *)
Theorem UpdateProxy_moves_route_to_new_gate (proxy : ptr) (P : Proxy)
    (cfg : ProxyConfig) (w w' : World) :
  proxyObjs (heap w) !! proxy = Some P →
  ListenTo cfg ≠ proxy_listenTo P →
  gates (gateway w) !! ListenTo cfg = None →
  gates_allocated w →
  outcome (Gateway_UpdateProxy proxy cfg) w = Ret None w' →
  (∃ G, gate_at w' (ListenTo cfg) = Some G ∧
        gate_listenTo G = ListenTo cfg ∧
        gate_proxies G = {[DomainName cfg := proxy]}) ∧
  route_at w' (ListenTo cfg) (DomainName cfg) = Some proxy ∧
  proxyObjs (heap w') !! proxy = Some (configured cfg) ∧
  route_at w' (proxy_listenTo P) (proxy_domainName P) = None ∧
  ∃ t2 w2 t3,
    Gateway_AddProxy proxy (upd_proxy proxy (configured cfg) w) = (t2, Ret None w2) ∧
    Gateway_RemoveProxy (proxy_listenTo P) (proxy_domainName P) w2 = (t3, Ret tt w') ∧
    visited (Gateway_UpdateProxy proxy cfg) w =
      upd_proxy proxy (configured cfg) w :: t2 ++ t3 ∧
    route_at w2 (ListenTo cfg) (DomainName cfg) = Some proxy ∧
    Forall (λ s, route_at s (proxy_listenTo P) (proxy_domainName P) =
                 route_at w (proxy_listenTo P) (proxy_domainName P))
           (upd_proxy proxy (configured cfg) w :: t2).
Proof.
  intros HP Hne HgB Halloc. unfold outcome, visited.
  destruct (validateConfig cfg) as [e|] eqn:Hv.
  { by rewrite (run_Gateway_UpdateProxy_invalid _ _ _ _ _ HP Hne Hv). }
  rewrite (run_Gateway_UpdateProxy_no_gate _ _ _ _ HP Hne HgB Hv).
  set (w1 := upd_proxy proxy (configured cfg) w).
  assert (HP1 : proxyObjs (heap w1) !! proxy = Some (configured cfg))
    by (subst w1; wsimp; apply lookup_insert_eq).
  destruct (checkListenTo (ListenTo cfg)) as [e|] eqn:Hc.
  { by erewrite (bind_run _ _ w1) by (by eapply run_Gateway_AddProxy_invalid). }
  destruct (run_Gateway_AddProxy_new proxy (configured cfg) w1)
    as (t & w2 & Hrun & Hgates & Hobjs & Hprox & Htr); [done..|].
  change (gateObjs (heap w1)) with (gateObjs (heap w)) in *.
  change (gates (gateway w1)) with (gates (gateway w)) in *.
  change (gateway w1) with (gateway w) in *.
  change (proxy_listenTo (configured cfg)) with (ListenTo cfg) in *.
  change (proxy_domainName (configured cfg)) with (DomainName cfg) in *.
  set (g := fresh (dom (gateObjs (heap w)))) in *.
  set (G := set_gate_proxies (<[DomainName cfg := proxy]>)
              (registered (gateway w) (new_gate (ListenTo cfg)))) in *.
  assert (Hg : gateObjs (heap w) !! g = None) by apply fresh_gate_unallocated.
  assert (Hng : ∀ ga, gates (gateway w) !! proxy_listenTo P = Some ga → ga ≠ g).
  { intros ga Hga ->. destruct (Halloc _ _ Hga) as [? ?]. congruence. }
  assert (Hnew2 : route_at w2 (ListenTo cfg) (DomainName cfg) = Some proxy).
  { unfold route_at. rewrite Hgates, Hobjs, !lookup_insert_eq.
    subst G. wsimp. apply lookup_insert_eq. }
  assert (Hold2 : Forall (λ s, route_at s (proxy_listenTo P) (proxy_domainName P) =
                    route_at w (proxy_listenTo P) (proxy_domainName P)) (w1 :: t)).
  { apply List.Forall_cons; [done|].
    eapply Forall_impl; [exact Htr|]. intros s Hs.
    by rewrite (touches_only_route _ _ _ _ _ _ Hs). }
  erewrite (bind_run _ _ _ _ _ _ Hrun).
  assert (Hrem : ∃ t3 w3,
            Gateway_RemoveProxy (proxy_listenTo P) (proxy_domainName P) w2 = (t3, Ret tt w3) ∧
            route_at w3 (proxy_listenTo P) (proxy_domainName P) = None ∧
            gate_at w3 (ListenTo cfg) = Some G ∧
            proxyObjs (heap w3) = proxyObjs (heap w2)).
  { assert (HgG : gate_at w2 (ListenTo cfg) = Some G)
      by (unfold gate_at; by rewrite Hgates, Hobjs, !lookup_insert_eq).
    destruct (gates (gateway w) !! proxy_listenTo P) as [gA|] eqn:HgA.
    - assert (HAg : gA ≠ g) by (by apply Hng).
      destruct (Halloc _ _ HgA) as [GA HGA].
      assert (HgA2 : gates (gateway w2) !! proxy_listenTo P = Some gA)
        by (by rewrite Hgates, lookup_insert_ne).
      assert (HGA2 : gateObjs (heap w2) !! gA = Some GA)
        by (by rewrite Hobjs, lookup_insert_ne).
      rewrite (run_Gateway_RemoveProxy_gate _ _ gA) by done.
      destruct (gate_proxies GA !! proxy_domainName P) as [q|] eqn:Hq.
      + rewrite (run_Gate_RemoveProxy_present _ _ _ _ _ HGA2 Hq).
        eexists _, _. split; [done|]. split; [|split; [|done]].
        * rewrite route_at_upd_gate_same by done. wsimp. apply lookup_delete_eq.
        * unfold gate_at. wsimp.
          by rewrite Hgates, lookup_insert_eq, lookup_insert_ne, Hobjs, lookup_insert_eq.
      + rewrite (run_Gate_RemoveProxy_absent _ _ _ _ HGA2 Hq).
        eexists _, _. split; [done|]. split; [|done].
        unfold route_at. by rewrite HgA2, HGA2.
    - rewrite run_Gateway_RemoveProxy_no_gate by (by rewrite Hgates, lookup_insert_ne).
      eexists _, _. split; [done|]. split; [|done].
      unfold route_at. by rewrite Hgates, lookup_insert_ne, HgA. }
  destruct Hrem as (t3 & w3 & Hrem & Hgone & HG3 & Hprox3).
  erewrite (bind_run _ _ _ _ _ _ Hrem).
  cbn [after_trace ret app fst snd]. intros [= <-].
  split; [exists G; by subst G|].
  split.
  { unfold gate_at in HG3. unfold route_at.
    destruct (gates (gateway w3) !! ListenTo cfg) as [gB|]; [|done].
    rewrite HG3. subst G. wsimp. apply lookup_insert_eq. }
  split; [by rewrite Hprox3, Hprox|].
  split; [done|].
  exists t, w2, t3. by rewrite app_nil_r.
Qed.

(** When a gate exists for the new address and it is another gate object
    than the one of the old address, [UpdateProxy] never touches the old
    gate: whatever the call returns, the old binding is what it was. *)
Lemma UpdateProxy_existing_gate_old_binding_stays (proxy : ptr) (P : Proxy)
    (cfg : ProxyConfig) (gA gB : ptr) (w : World) :
  proxyObjs (heap w) !! proxy = Some P →
  ListenTo cfg ≠ proxy_listenTo P →
  gates (gateway w) !! ListenTo cfg = Some gB →
  gates (gateway w) !! proxy_listenTo P = Some gA →
  gA ≠ gB →
  ∀ r w', outcome (Gateway_UpdateProxy proxy cfg) w = Ret r w' →
    route_at w' (proxy_listenTo P) (proxy_domainName P) =
    route_at w (proxy_listenTo P) (proxy_domainName P).
Proof.
  intros HP Hne HgB HgA HAB r w'. unfold outcome.
  destruct (validateConfig cfg) as [e|] eqn:Hv.
  { rewrite (run_Gateway_UpdateProxy_invalid _ _ _ _ _ HP Hne Hv). simpl.
    by intros [= _ <-]. }
  rewrite (run_Gateway_UpdateProxy_gate _ _ _ _ _ HP Hne HgB Hv).
  set (w1 := upd_proxy proxy (configured cfg) w).
  assert (HP1 : proxyObjs (heap w1) !! proxy = Some (configured cfg))
    by (subst w1; wsimp; apply lookup_insert_eq).
  destruct (gateObjs (heap w) !! gB) as [GB|] eqn:HGB.
  2:{ by erewrite bind_Gate_AddProxy_nil. }
  destruct (gate_proxies GB !! DomainName cfg) as [q|] eqn:Hq.
  { erewrite bind_Gate_AddProxy_dup by done. simpl. by intros [= _ <-]. }
  erewrite bind_Gate_AddProxy_ok by done. wsimp.
  set (G2 := set_gate_proxies (<[DomainName cfg := proxy]>) GB).
  set (w2 := upd_gate gB G2 w1).
  destruct (gate_proxies G2 !! proxy_domainName P) as [q|] eqn:Hq2.
  - erewrite bind_Gate_RemoveProxy_present;
      [ | subst w2; wsimp; apply lookup_insert_eq | exact Hq2 ].
    cbn beta. cbn [after_trace ret app fst snd]. intros [= _ <-].
    subst w2 w1. by rewrite !route_at_upd_gate_other with (g' := gA).
  - erewrite bind_Gate_RemoveProxy_absent;
      [ | subst w2; wsimp; apply lookup_insert_eq | exact Hq2 ].
    cbn beta. cbn [after_trace ret app fst snd]. intros [= _ <-].
    subst w2 w1. by rewrite !route_at_upd_gate_other with (g' := gA).
Qed.

End Registry.

(** ** The model run on the deployment *)

Section Deployment.
#[local] Existing Instance demo.

(** The worlds of the deployment are the ones the gateway builds. *)
Lemma world_one_built : outcome (Gateway_AddProxy 1) world_none = Ret None world_one.
Proof. vm_compute. reflexivity. Qed.

Lemma world_two_built : outcome (Gateway_AddProxy 2) world_one = Ret None world_two.
Proof. vm_compute. reflexivity. Qed.

Lemma world_moved_built :
  outcome (Gateway_UpdateProxy 1 cfg_moved) world_one = Ret None world_moved.
Proof. vm_compute. reflexivity. Qed.

(** C1 (what the code does instead). Route [a] is bound under
    ([:25565], [a.example.com]) and a gate exists for [:25566]. After
    [UpdateProxy] moved it to [:25566] and returned [nil], the gate of the
    old address [:25565] still maps the old hostname to the route. With the
    hostname kept, the gate of the new address does not hold the route
    either: [RemoveProxy(oldDomainName)] ran on the gate of the new address
    and took out the binding just added. With the hostname changed, the new
    gate holds the route under the new hostname and the old gate still holds
    it under the old one. *)
Theorem UpdateProxy_existing_gate_removes_from_target_gate :
  (outcome (Gateway_UpdateProxy 1 cfg_moved) world_two =
     Ret None (upd_proxy 1 (configured cfg_moved) world_two) ∧
   route_at (upd_proxy 1 (configured cfg_moved) world_two) ":25565" "a.example.com" = Some 1%positive ∧
   route_at (upd_proxy 1 (configured cfg_moved) world_two) ":25566" "a.example.com" = None) ∧
  (∃ w', outcome (Gateway_UpdateProxy 1 cfg_renamed) world_two = Ret None w' ∧
     route_at w' ":25565" "a.example.com" = Some 1%positive ∧
     route_at w' ":25566" "a2.example.com" = Some 1%positive).
Proof.
  split.
  - split; [vm_compute; reflexivity|]. split; vm_compute; reflexivity.
  - eexists. split; [vm_compute; reflexivity|]. split; vm_compute; reflexivity.
Qed.

(** C7 on the deployment: no gate listens on [:25566] in [world_one]. *)
Lemma RemoveGate_RemoveProxy_unknown_address_noop_witness :
  gates (gateway world_one) !! ":25566" = None ∧
  Gateway_RemoveGate ":25566" world_one = ([], Ret tt world_one) ∧
  Gateway_RemoveProxy ":25566" "b.example.com" world_one = ([], Ret tt world_one).
Proof.
  split; [reflexivity|].
  apply (RemoveGate_RemoveProxy_unknown_address_noop ":25566" "b.example.com" world_one).
  reflexivity.
Defined.

(** C6 on the deployment: gate 3 listens on the taken address [:25565],
    gate 4 on the free address [:25567]. *)
Lemma AddGate_registered_or_inserted_witness :
  Gateway_AddGate 3 world_spare =
    ([], Ret (Some ErrGateSignatureAlreadyRegistered) world_spare) ∧
  ∃ w', outcome (Gateway_AddGate 4) world_spare = Ret None w' ∧
        gates (gateway w') = <[":25567" := 4%positive]> (gates (gateway world_spare)).
Proof.
  split.
  - apply (AddGate_registered_or_inserted 3 (new_gate ":25565") world_spare);
      [reflexivity|]. exists 1%positive. reflexivity.
  - destruct (AddGate_registered_or_inserted 4 (new_gate ":25567") world_spare)
      as [_ Hfresh]; [reflexivity|].
    destruct Hfresh as (w' & Hout & Hgates & _); [reflexivity|].
    exists w'. split; [exact Hout|exact Hgates].
Defined.

(** C9 on the deployment: the watched file is removed. *)
Lemma onConfigChange_ignores_other_ops_witness :
  fsnotify_Remove ≠ fsnotify_Write ∧
  Gateway_onConfigChange 1 0 {| event_Name := "configs/a.yml"; event_Op := fsnotify_Remove |}
    world_two = ([], Ret tt world_two).
Proof.
  split; [discriminate|].
  apply (onConfigChange_ignores_other_ops 1 0
           {| event_Name := "configs/a.yml"; event_Op := fsnotify_Remove |} world_two).
  discriminate.
Defined.

(** C4 on the deployment: route [a] renamed on its address, without a
    gate for it ([world_none]) and with one ([world_two]). *)
Lemma UpdateProxy_same_address_witness :
  Gateway_UpdateProxy 1 cfg_same_addr world_none = ([], Ret (Some ErrGateDoesNotExist) world_none) ∧
  Gateway_UpdateProxy 1 cfg_same_addr world_two = call_Gate_UpdateProxy 1 1 cfg_same_addr world_two ∧
  Forall (λ s, gates (gateway s) = gates (gateway world_two))
         (visited (Gateway_UpdateProxy 1 cfg_same_addr) world_two).
Proof.
  split; [|split].
  - apply (UpdateProxy_same_address 1 (configured cfg_a) cfg_same_addr world_none);
      reflexivity.
  - apply (UpdateProxy_same_address 1 (configured cfg_a) cfg_same_addr world_two);
      reflexivity.
  - apply (UpdateProxy_same_address 1 (configured cfg_a) cfg_same_addr world_two);
      reflexivity.
Defined.

(** C8 on the deployment: in [world_one] route [b] needs a gate for
    [:25566], route [c] goes to the gate of [:25565]. *)
Lemma AddProxy_creates_one_gate_or_delegates_witness :
  (∃ w', outcome (Gateway_AddProxy 2) world_one = Ret None w' ∧
         size (gates (gateway w')) = S (size (gates (gateway world_one)))) ∧
  Gateway_AddProxy 3 world_one = Gate_AddProxy 1 3 world_one.
Proof.
  split.
  - destruct (AddProxy_creates_one_gate_or_delegates 2 (configured cfg_b) world_one)
      as [Hnew _]; [reflexivity|].
    destruct Hnew as [Hok Hfacts]; [reflexivity|].
    destruct (proj1 Hok) as [w' Hout]; [reflexivity|].
    destruct (Hfacts w' Hout) as (gate & G & _ & _ & Hsize & _).
    exists w'. split; [exact Hout|exact Hsize].
  - apply (AddProxy_creates_one_gate_or_delegates 3 (configured cfg_c) world_one);
      reflexivity.
Defined.

(** C5 on the deployment: serving the gateway that has no gate. *)
Lemma ListenAndServe_without_gates_witness :
  ∃ t w', Gateway_ListenAndServe world_none = (t, Ret (Some ErrNoGateInGateway) w') ∧
          gateway w' = gateway world_none.
Proof.
  destruct (proj1 (ListenAndServe_without_gates world_none))
    as (t & w' & Hrun & Hgw & _); [reflexivity|].
  exists t, w'. split; [exact Hrun|exact Hgw].
Defined.

(** C10 on the deployment: route [a] moved to [:25566] under the hostname
    route [b] already has there, and route [a] moved to an address for
    which [NewGate] fails. *)
Lemma UpdateProxy_failed_add_keeps_old_binding_witness :
  (outcome (Gateway_UpdateProxy 1 cfg_clash) world_two =
     Ret (Some ErrDuplicateHostname) (upd_proxy 1 (configured cfg_clash) world_two) ∧
   route_at (upd_proxy 1 (configured cfg_clash) world_two) ":25565" "a.example.com" =
     route_at world_two ":25565" "a.example.com" ∧
   proxyObjs (heap (upd_proxy 1 (configured cfg_clash) world_two)) !! 1%positive =
     Some (configured cfg_clash)) ∧
  (outcome (Gateway_UpdateProxy 1 cfg_no_addr) world_one =
     Ret (Some (ErrCollaborator "empty listen address"))
         (upd_proxy 1 (configured cfg_no_addr) world_one) ∧
   route_at (upd_proxy 1 (configured cfg_no_addr) world_one) ":25565" "a.example.com" =
     route_at world_one ":25565" "a.example.com").
Proof.
  assert (Hout : outcome (Gateway_UpdateProxy 1 cfg_clash) world_two =
            Ret (Some ErrDuplicateHostname) (upd_proxy 1 (configured cfg_clash) world_two))
    by (vm_compute; reflexivity).
  assert (Hout' : outcome (Gateway_UpdateProxy 1 cfg_no_addr) world_one =
            Ret (Some (ErrCollaborator "empty listen address"))
                (upd_proxy 1 (configured cfg_no_addr) world_one))
    by (vm_compute; reflexivity).
  split.
  - split; [exact Hout|].
    destruct (UpdateProxy_failed_add_keeps_old_binding 1 (configured cfg_a) cfg_clash
                world_two (upd_proxy 1 (configured cfg_clash) world_two)
                ErrDuplicateHostname eq_refl)
      as (_ & _ & _ & Hid & _ & _ & Hroutes); [discriminate|reflexivity|exact Hout|].
    split; [apply Hroutes|exact Hid].
  - split; [exact Hout'|].
    destruct (UpdateProxy_failed_add_keeps_old_binding 1 (configured cfg_a) cfg_no_addr
                world_one (upd_proxy 1 (configured cfg_no_addr) world_one)
                (ErrCollaborator "empty listen address") eq_refl)
      as (_ & _ & _ & _ & _ & _ & Hroutes); [discriminate|reflexivity|exact Hout'|].
    apply Hroutes.
Defined.



(** Every gate registered in [world_one] is an object of its store. *)
Lemma world_one_allocated : gates_allocated world_one.
Proof.
  intros addr gate Hgate.
  change (({[":25565" := 1%positive]} : gmap string ptr) !! addr = Some gate) in Hgate.
  apply lookup_singleton_Some in Hgate as [_ <-]. by eexists.
Defined.

(** C2 on the deployment: route [a] moved from [:25565] to [:25566], for
    which no gate exists in [world_one]. *)
Lemma UpdateProxy_moves_route_to_new_gate_witness :
  outcome (Gateway_UpdateProxy 1 cfg_moved) world_one = Ret None world_moved ∧
  route_at world_moved ":25566" "a.example.com" = Some 1%positive ∧
  route_at world_moved ":25565" "a.example.com" = None.
Proof.
  assert (Hout : outcome (Gateway_UpdateProxy 1 cfg_moved) world_one = Ret None world_moved)
    by (vm_compute; reflexivity).
  split; [exact Hout|].
  destruct (UpdateProxy_moves_route_to_new_gate 1 (configured cfg_a) cfg_moved
              world_one world_moved eq_refl)
    as (_ & Hnew & _ & Hold & _);
    [discriminate|reflexivity|exact world_one_allocated|exact Hout|].
  split; [exact Hnew|exact Hold].
Defined.

End Deployment.

(** ** More of the registry: removal, round trips, invariants *)

Section Removal.
Context `{C : Collaborators}.

Lemma gates_keyed_lookup w addr gate :
  gates_keyed w → gates (gateway w) !! addr = Some gate →
  ∃ G, gateObjs (heap w) !! gate = Some G ∧ gate_listenTo G = addr.
Proof.
  intros Hk Hg. specialize (Hk addr gate Hg). simpl in Hk.
  destruct (gateObjs (heap w) !! gate) as [G|]; [|done].
  exists G. split; [done|]. by injection Hk.
Qed.

(** Two addresses never share a gate object. *)
Lemma gates_keyed_inj w a a' gate :
  gates_keyed w → gates (gateway w) !! a = Some gate →
  gates (gateway w) !! a' = Some gate → a = a'.
Proof.
  intros Hk Ha Ha'.
  destruct (gates_keyed_lookup _ _ _ Hk Ha) as (G & HG & <-).
  destruct (gates_keyed_lookup _ _ _ Hk Ha') as (G' & HG' & <-). congruence.
Qed.

Lemma gates_keyed_allocated w : gates_keyed w → gates_allocated w.
Proof.
  intros Hk addr gate Hg.
  destruct (gates_keyed_lookup _ _ _ Hk Hg) as (G & HG & _). by exists G.
Qed.

(** [RemoveGate(addr)] on a registered gate, lines 93-99: the two states it
    passes through. *)
Lemma run_Gateway_RemoveGate_registered addr gate G w :
  gates (gateway w) !! addr = Some gate →
  gateObjs (heap w) !! gate = Some G →
  Gateway_RemoveGate addr w =
  ([upd_gate gate (set_gate_closed true G) w;
    set_gateway (set_gates (delete addr)) (upd_gate gate (set_gate_closed true G) w)],
   Ret tt (set_gateway (set_gates (delete addr)) (upd_gate gate (set_gate_closed true G) w))).
Proof.
  intros Hg HG. unfold Gateway_RemoveGate. repeat mstep. rewrite Hg.
  by repeat mstep.
Qed.

Lemma run_Gateway_RemoveGate_nil addr gate w :
  gates (gateway w) !! addr = Some gate →
  gateObjs (heap w) !! gate = None →
  Gateway_RemoveGate addr w = ([], Panic).
Proof.
  intros Hg HG. unfold Gateway_RemoveGate. repeat mstep. rewrite Hg.
  unfold Gate_Close. by repeat mstep.
Qed.

(** X1. [RemoveGate(addr)] on an address whose gate is registered returns,
    having first closed the gate and then deleted the entry: afterwards no
    gate is registered for [addr] and no route is reachable under it, the
    gate object is closed and keeps its address and its routes, and every
    other entry of [gateway.gates] and every route under another address
    is what it was. *)
Theorem RemoveGate_registered_closes_and_deregisters (addr : string) (gate : ptr)
    (G : Gate) (w : World) :
  gates (gateway w) !! addr = Some gate →
  gateObjs (heap w) !! gate = Some G →
  ∃ w', outcome (Gateway_RemoveGate addr) w = Ret tt w' ∧
    gates (gateway w') = delete addr (gates (gateway w)) ∧
    gateObjs (heap w') !! gate = Some (set_gate_closed true G) ∧
    (∀ domainName, route_at w' addr domainName = None) ∧
    (∀ a domainName, a ≠ addr → route_at w' a domainName = route_at w a domainName) ∧
    proxyObjs (heap w') = proxyObjs (heap w) ∧
    running (gateway w') = running (gateway w) ∧ tasks w' = tasks w.
Proof.
  intros Hg HG. eexists. unfold outcome.
  rewrite (run_Gateway_RemoveGate_registered _ _ _ _ Hg HG). simpl.
  split; [done|]. split; [done|]. split; [apply lookup_insert_eq|].
  split; [|split; [|done]].
  - intros domainName. unfold route_at. wsimp. by rewrite lookup_delete_eq.
  - intros a domainName Ha. unfold route_at. wsimp.
    rewrite lookup_delete_ne by done.
    destruct (gates (gateway w) !! a) as [ga|]; [|done].
    destruct (decide (ga = gate)) as [->|Hne].
    + by rewrite lookup_insert_eq, HG.
    + by rewrite lookup_insert_ne.
Qed.

(** X2. [RemoveGate] is idempotent: removing the same address twice ends
    exactly as removing it once (the second call finds no gate and does
    nothing), whatever the world, a nil gate pointer included. *)
Theorem RemoveGate_idempotent (addr : string) (w : World) :
  outcome (bind (Gateway_RemoveGate addr) (λ _, Gateway_RemoveGate addr)) w =
  outcome (Gateway_RemoveGate addr) w.
Proof.
  unfold outcome.
  destruct (gates (gateway w) !! addr) as [gate|] eqn:Hg.
  - destruct (gateObjs (heap w) !! gate) as [G|] eqn:HG.
    + erewrite bind_run by (by eapply run_Gateway_RemoveGate_registered).
      rewrite (run_Gateway_RemoveGate_registered _ _ _ _ Hg HG).
      set (w2 := set_gateway _ _).
      assert (Hnone : gates (gateway w2) !! addr = None)
        by (subst w2; wsimp; apply lookup_delete_eq).
      unfold Gateway_RemoveGate at 1. repeat mstep. by rewrite Hnone.
    + erewrite bind_run_Panic by (by eapply run_Gateway_RemoveGate_nil).
      by rewrite (run_Gateway_RemoveGate_nil _ _ _ Hg HG).
  - assert (Hrun : Gateway_RemoveGate addr w = ([], Ret tt w))
      by (unfold Gateway_RemoveGate; repeat mstep; by rewrite Hg).
    erewrite bind_run by exact Hrun. by rewrite Hrun.
Qed.

(** X3. [AddGate] starts a serving goroutine exactly when the gateway is
    running: a successful call on a running gateway adds one to the wait
    group and starts one goroutine, for the gate it registered, that will
    delete the gate's own address; on a gateway that is not running it
    starts none and leaves the wait group alone. The [running] flag itself
    is never changed by [AddGate]. *)
Theorem AddGate_serves_only_when_running (gate : ptr) (G : Gate) (w : World) :
  gateObjs (heap w) !! gate = Some G →
  gates (gateway w) !! gate_listenTo G = None →
  ∃ w', outcome (Gateway_AddGate gate) w = Ret None w' ∧
    running (gateway w') = running (gateway w) ∧
    if running (gateway w)
    then tasks w' = tasks w ++ [{| task_gate := gate; task_listenTo := gate_listenTo G |}] ∧
         wg (gateway w') = wg (gateway w) + 1
    else tasks w' = tasks w ∧ wg (gateway w') = wg (gateway w).
Proof.
  intros HG Hfree. unfold outcome.
  destruct (decide (Level_rank (globalLevel w) ≤ Level_rank DebugLevel)) as [Hl|Hl];
  destruct (running (gateway w)) eqn:Hrun;
  eexists;
  (split; [
    unfold Gateway_AddGate, wg_Add, go; repeat mstep; rewrite Hfree;
    repeat mstep; rewrite Hrun; cbn [negb]; repeat mstep;
    cbn [after_trace ret app fst snd]; reflexivity |]).
  all: by wsimp.
Qed.

(** All that a successful [AddGate] leaves behind. *)
Lemma run_Gateway_AddGate_fresh_world gate G w :
  gateObjs (heap w) !! gate = Some G →
  gates (gateway w) !! gate_listenTo G = None →
  ∃ t w', Gateway_AddGate gate w = (t, Ret None w') ∧
    gates (gateway w') = <[gate_listenTo G := gate]> (gates (gateway w)) ∧
    gateObjs (heap w') = <[gate := registered (gateway w) G]> (gateObjs (heap w)) ∧
    proxyObjs (heap w') = proxyObjs (heap w) ∧
    running (gateway w') = running (gateway w) ∧
    logger (gateway w') = logger (gateway w) ∧
    loggerOutputs (gateway w') = loggerOutputs (gateway w) ∧
    globalLevel w' = globalLevel w ∧
    io w' = io w ++ emitted (globalLevel w) (logger (gateway w)) DebugLevel
                      [("gate", gate_listenTo G)] None "Added gate to gateway" ∧
    if running (gateway w)
    then wg (gateway w') = wg (gateway w) + 1 ∧
         tasks w' = tasks w ++ [{| task_gate := gate; task_listenTo := gate_listenTo G |}]
    else wg (gateway w') = wg (gateway w) ∧ tasks w' = tasks w.
Proof.
  intros HG Hfree. unfold emitted.
  destruct (decide (Level_rank (globalLevel w) ≤ Level_rank DebugLevel)) as [Hl|Hl];
  destruct (running (gateway w)) eqn:Hrun;
  eexists _, _;
  (split; [
    rewrite <- (bind_ret_r (Gateway_AddGate gate));
    unfold Gateway_AddGate, wg_Add, go; repeat mstep; rewrite Hfree;
    repeat mstep; rewrite Hrun; cbn [negb]; repeat mstep; mdone |]).
  all: cbn [after_trace ret app fst snd]; wsimp; unfold registered.
  all: rewrite ?app_nil_r, ?Hrun.
  all: split; [done|]; split; [by rewrite insert_insert_eq|]; by repeat split.
Qed.

(** X4. Registering a gate and removing its address again: [AddGate(gate)]
    on a free address followed by [RemoveGate(gate.listenTo)] returns with
    [gateway.gates], the [running] flag, the logger and its outputs as they
    were before the two calls. The gate object is closed and carries the
    gateway's logger outputs, with its address and routes untouched; the
    Debug line "Added gate to gateway" is the only output, if the global
    level lets it through. On a gateway that is not running nothing else
    has changed. On a running gateway the wait group stays higher by one
    and the goroutine [AddGate] started for the gate is still there:
    [RemoveGate] does not take them back. *)
Theorem AddGate_then_RemoveGate_restores_gates (gate : ptr) (G : Gate) (w : World) :
  gateObjs (heap w) !! gate = Some G →
  gates (gateway w) !! gate_listenTo G = None →
  ∃ w', outcome (bind (Gateway_AddGate gate)
                      (λ _, Gateway_RemoveGate (gate_listenTo G))) w = Ret tt w' ∧
    gates (gateway w') = gates (gateway w) ∧
    gateObjs (heap w') = <[gate := set_gate_closed true (registered (gateway w) G)]>
                           (gateObjs (heap w)) ∧
    gate_listenTo (set_gate_closed true (registered (gateway w) G)) = gate_listenTo G ∧
    gate_proxies (set_gate_closed true (registered (gateway w) G)) = gate_proxies G ∧
    proxyObjs (heap w') = proxyObjs (heap w) ∧
    running (gateway w') = running (gateway w) ∧
    logger (gateway w') = logger (gateway w) ∧
    loggerOutputs (gateway w') = loggerOutputs (gateway w) ∧
    globalLevel w' = globalLevel w ∧
    io w' = io w ++ emitted (globalLevel w) (logger (gateway w)) DebugLevel
                      [("gate", gate_listenTo G)] None "Added gate to gateway" ∧
    if running (gateway w)
    then wg (gateway w') = wg (gateway w) + 1 ∧
         tasks w' = tasks w ++ [{| task_gate := gate; task_listenTo := gate_listenTo G |}]
    else wg (gateway w') = wg (gateway w) ∧ tasks w' = tasks w.
Proof.
  intros HG Hfree.
  destruct (run_Gateway_AddGate_fresh_world gate G w HG Hfree)
    as (t & w1 & Hrun & Hgates & Hobjs & Hprox & Hrunning & Hlogger & Houts & Hlvl & Hio & Hserve).
  assert (Hg1 : gates (gateway w1) !! gate_listenTo G = Some gate)
    by (rewrite Hgates; apply lookup_insert_eq).
  assert (HG1 : gateObjs (heap w1) !! gate = Some (registered (gateway w) G))
    by (rewrite Hobjs; apply lookup_insert_eq).
  eexists. unfold outcome. erewrite bind_run by exact Hrun.
  rewrite (run_Gateway_RemoveGate_registered _ _ _ _ Hg1 HG1).
  cbn [after_trace snd]. split; [done|]. wsimp.
  split; [by rewrite Hgates, delete_insert_id|].
  split; [by rewrite Hobjs, insert_insert_eq|].
  do 8 (split; [done|]). exact Hserve.
Qed.

End Removal.

Section Routes.
Context `{C : Collaborators}.

Lemma gates_keyed_upd_gate g G G' w :
  gates_keyed w → gateObjs (heap w) !! g = Some G →
  gate_listenTo G' = gate_listenTo G → gates_keyed (upd_gate g G' w).
Proof.
  intros Hk HG Heq addr gate Hg. wsimp. simpl.
  destruct (decide (g = gate)) as [<-|Hne].
  - rewrite lookup_insert_eq. simpl. rewrite Heq.
    specialize (Hk addr g Hg). simpl in Hk. by rewrite HG in Hk.
  - rewrite lookup_insert_ne by done. exact (Hk addr gate Hg).
Qed.

Lemma gates_keyed_upd_proxy p P w : gates_keyed w → gates_keyed (upd_proxy p P w).
Proof. done. Qed.

Lemma route_at_no_gate w addr domainName :
  gates (gateway w) !! addr = None → route_at w addr domainName = None.
Proof. intros Hg. unfold route_at. by rewrite Hg. Qed.

(** Writing the gate of [addr] changes the routes under [addr] only. *)
Lemma route_at_upd_gate_frame w addr gate G' a domainName :
  gates_keyed w → gates (gateway w) !! addr = Some gate → a ≠ addr →
  route_at (upd_gate gate G' w) a domainName = route_at w a domainName.
Proof.
  intros Hk Hg Ha.
  destruct (gates (gateway w) !! a) as [ga|] eqn:Hga.
  - apply route_at_upd_gate_other with (g' := ga); [done|].
    intros ->. by apply Ha, (gates_keyed_inj w a addr gate).
  - by rewrite !route_at_no_gate.
Qed.

(** What [AddProxy] does on a registry whose gates are registered under
    their own address: it fails and changes nothing, or it succeeds, binds
    the route where nothing was bound, and leaves every other binding. *)
Lemma Gateway_AddProxy_cases proxy P w :
  proxyObjs (heap w) !! proxy = Some P →
  gates_keyed w →
  (∃ err, Gateway_AddProxy proxy w = ([], Ret (Some err) w)) ∨
  (∃ t w', Gateway_AddProxy proxy w = (t, Ret None w') ∧
     route_at w (proxy_listenTo P) (proxy_domainName P) = None ∧
     route_at w' (proxy_listenTo P) (proxy_domainName P) = Some proxy ∧
     (∀ a h, a ≠ proxy_listenTo P ∨ h ≠ proxy_domainName P →
             route_at w' a h = route_at w a h) ∧
     proxyObjs (heap w') = proxyObjs (heap w) ∧
     gates_keyed w' ∧
     dom (gates (gateway w')) = {[proxy_listenTo P]} ∪ dom (gates (gateway w))).
Proof.
  intros HP Hk.
  destruct (gates (gateway w) !! proxy_listenTo P) as [gate|] eqn:Hg.
  - rewrite (run_Gateway_AddProxy_delegates _ _ _ _ HP Hg).
    destruct (gates_keyed_lookup _ _ _ Hk Hg) as (G & HG & HGl).
    rewrite <- (bind_ret_r (Gate_AddProxy gate proxy)).
    destruct (gate_proxies G !! proxy_domainName P) as [q|] eqn:Hq.
    + left. exists ErrDuplicateHostname. by erewrite bind_Gate_AddProxy_dup.
    + right. erewrite bind_Gate_AddProxy_ok by done.
      eexists _, _. split; [reflexivity|].
      split; [unfold route_at; by rewrite Hg, HG|].
      split; [rewrite route_at_upd_gate_same by done; wsimp; apply lookup_insert_eq|].
      split; [|split; [done|split]].
      * intros a h [Ha|Hh].
        -- by eapply route_at_upd_gate_frame.
        -- destruct (decide (a = proxy_listenTo P)) as [->|Ha];
             [|by eapply route_at_upd_gate_frame].
           rewrite route_at_upd_gate_same by done. wsimp.
           rewrite lookup_insert_ne by done. unfold route_at. by rewrite Hg, HG.
      * by eapply gates_keyed_upd_gate.
      * wsimp. symmetry. apply subseteq_union_1_L, singleton_subseteq_l.
        by eapply elem_of_dom_2.
  - destruct (checkListenTo (proxy_listenTo P)) as [err|] eqn:Hc.
    + left. exists err. by eapply run_Gateway_AddProxy_invalid.
    + right.
      destruct (run_Gateway_AddProxy_new _ _ _ HP Hg Hc)
        as (t & w' & Hrun & Hgates & Hobjs & Hprox & _).
      pose proof (fresh_gate_unallocated w) as Hfresh.
      set (g := fresh (dom (gateObjs (heap w)))) in *.
      exists t, w'. split; [done|].
      split; [by apply route_at_no_gate|].
      split; [unfold route_at; rewrite Hgates, Hobjs, !lookup_insert_eq; wsimp;
              apply lookup_insert_eq|].
      split; [|split; [done|split]].
      * intros a h Hah. unfold route_at. rewrite Hgates, Hobjs.
        destruct (decide (a = proxy_listenTo P)) as [->|Ha].
        -- destruct Hah as [?|Hh]; [done|].
           rewrite !lookup_insert_eq, Hg. wsimp. by rewrite lookup_insert_ne.
        -- rewrite lookup_insert_ne by done.
           destruct (gates (gateway w) !! a) as [ga|] eqn:Hga; [|done].
           destruct (gates_keyed_lookup _ _ _ Hk Hga) as (Ga & HGa & _).
           rewrite lookup_insert_ne by congruence. done.
      * intros a ga. rewrite Hgates, Hobjs. simpl.
        destruct (decide (a = proxy_listenTo P)) as [->|Ha].
        -- rewrite lookup_insert_eq. intros [= <-]. by rewrite lookup_insert_eq.
        -- rewrite lookup_insert_ne by done. intros Hga.
           destruct (gates_keyed_lookup _ _ _ Hk Hga) as (Ga & HGa & HGal).
           rewrite lookup_insert_ne by congruence. by rewrite HGa, <- HGal.
      * by rewrite Hgates, dom_insert_L.
Qed.

(** What [RemoveProxy] does on such a registry: it returns, the gateway is
    untouched, the one binding is gone and every other binding stays. *)
Lemma Gateway_RemoveProxy_cases addr domainName w :
  gates_keyed w →
  ∃ t w', Gateway_RemoveProxy addr domainName w = (t, Ret tt w') ∧
    gateway w' = gateway w ∧
    Forall (λ s, gateway s = gateway w) t ∧
    route_at w' addr domainName = None ∧
    (∀ a h, a ≠ addr ∨ h ≠ domainName → route_at w' a h = route_at w a h) ∧
    proxyObjs (heap w') = proxyObjs (heap w) ∧
    gates_keyed w'.
Proof.
  intros Hk.
  destruct (gates (gateway w) !! addr) as [gate|] eqn:Hg.
  - rewrite (run_Gateway_RemoveProxy_gate _ _ _ _ Hg).
    destruct (gates_keyed_lookup _ _ _ Hk Hg) as (G & HG & HGl).
    destruct (gate_proxies G !! domainName) as [q|] eqn:Hq.
    + rewrite (run_Gate_RemoveProxy_present _ _ _ _ _ HG Hq).
      eexists _, _. split; [reflexivity|]. split; [done|].
      split; [by repeat constructor|].
      split; [rewrite route_at_upd_gate_same by done; wsimp; apply lookup_delete_eq|].
      split; [|split; [done|by eapply gates_keyed_upd_gate]].
      intros a h [Ha|Hh].
      * by eapply route_at_upd_gate_frame.
      * destruct (decide (a = addr)) as [->|Ha];
          [|by eapply route_at_upd_gate_frame].
        rewrite route_at_upd_gate_same by done. wsimp.
        rewrite lookup_delete_ne by done. unfold route_at. by rewrite Hg, HG.
    + rewrite (run_Gate_RemoveProxy_absent _ _ _ _ HG Hq).
      eexists _, _. split; [reflexivity|]. split; [done|].
      split; [constructor|].
      split; [unfold route_at; by rewrite Hg, HG|]. done.
  - rewrite (run_Gateway_RemoveProxy_no_gate _ _ _ Hg).
    eexists _, _. split; [reflexivity|]. split; [done|].
    split; [constructor|]. split; [by apply route_at_no_gate|]. done.
Qed.

(** X5. [AddProxy(proxy)] on a registry whose gates are registered under
    their own address either fails and then has changed nothing at all, or
    returns [nil] and then the route is reachable under (its address, its
    hostname), nothing was bound there before (a route is never replaced),
    and every other binding is what it was. *)
Theorem AddProxy_binds_or_changes_nothing (proxy : ptr) (P : Proxy) (w : World) :
  proxyObjs (heap w) !! proxy = Some P →
  gates_keyed w →
  ∃ r w', outcome (Gateway_AddProxy proxy) w = Ret r w' ∧
    match r with
    | Some err => w' = w ∧ visited (Gateway_AddProxy proxy) w = []
    | None =>
        route_at w (proxy_listenTo P) (proxy_domainName P) = None ∧
        route_at w' (proxy_listenTo P) (proxy_domainName P) = Some proxy ∧
        ∀ a h, a ≠ proxy_listenTo P ∨ h ≠ proxy_domainName P →
               route_at w' a h = route_at w a h
    end.
Proof.
  intros HP Hk. unfold outcome, visited.
  destruct (Gateway_AddProxy_cases proxy P w HP Hk)
    as [[err Hrun]|(t & w' & Hrun & Hfree & Hnew & Hframe & _)];
    rewrite Hrun; eexists _, _; (split; [reflexivity|]); simpl; done.
Qed.

(** X6. [RemoveProxy(addr, domainName)] on such a registry always returns;
    afterwards no route is reachable under ([addr], [domainName]), every
    other binding is what it was, and the gateway itself is untouched
    throughout: the gate stays registered even when its last route went. *)
Theorem RemoveProxy_unbinds_one_route (addr domainName : string) (w : World) :
  gates_keyed w →
  ∃ w', outcome (Gateway_RemoveProxy addr domainName) w = Ret tt w' ∧
    route_at w' addr domainName = None ∧
    (∀ a h, a ≠ addr ∨ h ≠ domainName → route_at w' a h = route_at w a h) ∧
    gateway w' = gateway w ∧
    Forall (λ s, gateway s = gateway w) (visited (Gateway_RemoveProxy addr domainName) w).
Proof.
  intros Hk. unfold outcome, visited.
  destruct (Gateway_RemoveProxy_cases addr domainName w Hk)
    as (t & w' & Hrun & Hgw & Ht & Hgone & Hframe & _).
  rewrite Hrun. by exists w'.
Qed.

(** X7. Adding a route and removing it again restores every binding but
    not the registry: after a successful [AddProxy(proxy)] followed by
    [RemoveProxy] of the route's address and hostname, every (address,
    hostname) resolves as before the two calls, while the address of the
    route is (still or newly) a key of [gateway.gates]: a gate built for
    the route is left registered without a route. *)
Theorem AddProxy_then_RemoveProxy_restores_routes (proxy : ptr) (P : Proxy) (w w1 : World) :
  proxyObjs (heap w) !! proxy = Some P →
  gates_keyed w →
  outcome (Gateway_AddProxy proxy) w = Ret None w1 →
  ∃ w2, outcome (Gateway_RemoveProxy (proxy_listenTo P) (proxy_domainName P)) w1 = Ret tt w2 ∧
    (∀ a h, route_at w2 a h = route_at w a h) ∧
    dom (gates (gateway w2)) = {[proxy_listenTo P]} ∪ dom (gates (gateway w)).
Proof.
  intros HP Hk. unfold outcome.
  destruct (Gateway_AddProxy_cases proxy P w HP Hk)
    as [[err Hrun]|(t & w' & Hrun & Hfree & Hnew & Hframe & _ & Hk' & Hdom)];
    rewrite Hrun; cbn [snd]; [done|]. intros [= Heq]; subst w1.
  destruct (Gateway_RemoveProxy_cases (proxy_listenTo P) (proxy_domainName P) w' Hk')
    as (t2 & w2 & Hrun2 & Hgw & _ & Hgone & Hframe2 & _).
  rewrite Hrun2. exists w2. split; [done|]. split; [|by rewrite Hgw].
  intros a h.
  destruct (decide (a = proxy_listenTo P)) as [->|Ha];
    [destruct (decide (h = proxy_domainName P)) as [->|Hh]|].
  - by rewrite Hgone, Hfree.
  - rewrite Hframe2 by (by right). apply Hframe. by right.
  - rewrite Hframe2 by (by left). apply Hframe. by left.
Qed.

(** X8. A hostname is bound once per address: after a successful
    [AddProxy(proxy)], [AddProxy] of any route that reports the same
    address and hostname (the same route again, or another one) fails with
    the duplicate-hostname error of the gate and changes nothing. *)
Theorem AddProxy_same_key_twice_fails (proxy other : ptr) (P Q : Proxy) (w w1 : World) :
  proxyObjs (heap w) !! proxy = Some P →
  proxyObjs (heap w) !! other = Some Q →
  proxy_listenTo Q = proxy_listenTo P →
  proxy_domainName Q = proxy_domainName P →
  gates_keyed w →
  outcome (Gateway_AddProxy proxy) w = Ret None w1 →
  Gateway_AddProxy other w1 = ([], Ret (Some ErrDuplicateHostname) w1).
Proof.
  intros HP HQ Hl Hd Hk. unfold outcome.
  destruct (Gateway_AddProxy_cases proxy P w HP Hk)
    as [[err Hrun]|(t & w' & Hrun & _ & Hnew & _ & Hprox & Hk' & _)];
    rewrite Hrun; cbn [snd]; [done|]. intros [= Heq]; subst w1.
  destruct (route_at_Some_inv _ _ _ _ Hnew) as (g & G & Hg & HG & Hq).
  assert (HQ' : proxyObjs (heap w') !! other = Some Q) by (by rewrite Hprox).
  rewrite (run_Gateway_AddProxy_delegates other Q g) by (by rewrite ?Hl).
  rewrite <- (bind_ret_r (Gate_AddProxy g other)).
  erewrite bind_Gate_AddProxy_dup; [done..|]. by rewrite Hd.
Qed.

Lemma Gate_AddProxy_keyed gate proxy w r w' :
  gates_keyed w → outcome (Gate_AddProxy gate proxy) w = Ret r w' → gates_keyed w'.
Proof.
  intros Hk. unfold outcome. rewrite <- (bind_ret_r (Gate_AddProxy gate proxy)).
  destruct (proxyObjs (heap w) !! proxy) as [P|] eqn:HP.
  - destruct (gateObjs (heap w) !! gate) as [G|] eqn:HG.
    + destruct (gate_proxies G !! proxy_domainName P) as [q|] eqn:Hq.
      * erewrite bind_Gate_AddProxy_dup by done. simpl. by intros [= _ <-].
      * erewrite bind_Gate_AddProxy_ok by done. simpl. intros [= _ <-].
        by eapply gates_keyed_upd_gate.
    + by erewrite bind_Gate_AddProxy_nil.
  - unfold Gate_AddProxy, Proxy_domainName_Read. by repeat mstep.
Qed.

Lemma Gate_RemoveProxy_keyed gate domainName w w' :
  gates_keyed w → outcome (Gate_RemoveProxy gate domainName) w = Ret tt w' →
  gates_keyed w'.
Proof.
  intros Hk. unfold outcome.
  destruct (gateObjs (heap w) !! gate) as [G|] eqn:HG.
  - destruct (gate_proxies G !! domainName) as [q|] eqn:Hq.
    + rewrite (run_Gate_RemoveProxy_present _ _ _ _ _ HG Hq). simpl.
      intros [= <-]. by eapply gates_keyed_upd_gate.
    + rewrite (run_Gate_RemoveProxy_absent _ _ _ _ HG Hq). simpl. by intros [= <-].
  - by rewrite (run_Gate_RemoveProxy_nil _ _ _ HG).
Qed.

Lemma Gateway_AddProxy_keyed proxy w r w' :
  gates_keyed w → outcome (Gateway_AddProxy proxy) w = Ret r w' → gates_keyed w'.
Proof.
  intros Hk. unfold outcome.
  destruct (proxyObjs (heap w) !! proxy) as [P|] eqn:HP.
  - destruct (Gateway_AddProxy_cases proxy P w HP Hk)
      as [[err Hrun]|(t & w1 & Hrun & _ & _ & _ & _ & Hk' & _)];
      rewrite Hrun; cbn [snd]; by intros [= _ <-].
  - unfold Gateway_AddProxy, Proxy_listenTo_Read. by repeat mstep.
Qed.

Lemma Gateway_RemoveProxy_keyed addr domainName w w' :
  gates_keyed w → outcome (Gateway_RemoveProxy addr domainName) w = Ret tt w' →
  gates_keyed w'.
Proof.
  intros Hk. unfold outcome.
  destruct (Gateway_RemoveProxy_cases addr domainName w Hk)
    as (t & w1 & Hrun & _ & _ & _ & _ & _ & Hk').
  rewrite Hrun. cbn [snd]. by intros [= <-].
Qed.

(** X9. The registry keeps its gates under their own address. If every
    entry [(addr, gate)] of [gateway.gates] points to a gate object that
    listens on [addr], then so does every entry after [AddGate],
    [RemoveGate], [AddProxy], [RemoveProxy], and [UpdateProxy] towards
    another address, whatever they return; in particular no two addresses
    ever share a gate. The new gateway has the property, having no gate. *)
Theorem gates_keyed_preserved (w : World) :
  gates_keyed w →
  (∀ gate r w', outcome (Gateway_AddGate gate) w = Ret r w' → gates_keyed w') ∧
  (∀ addr w', outcome (Gateway_RemoveGate addr) w = Ret tt w' → gates_keyed w') ∧
  (∀ proxy r w', outcome (Gateway_AddProxy proxy) w = Ret r w' → gates_keyed w') ∧
  (∀ addr domainName w',
     outcome (Gateway_RemoveProxy addr domainName) w = Ret tt w' → gates_keyed w') ∧
  (∀ proxy P cfg r w',
     proxyObjs (heap w) !! proxy = Some P → ListenTo cfg ≠ proxy_listenTo P →
     outcome (Gateway_UpdateProxy proxy cfg) w = Ret r w' → gates_keyed w').
Proof.
  intros Hk. split; [|split; [|split; [|split]]].
  - intros gate r w'. unfold outcome.
    destruct (gateObjs (heap w) !! gate) as [G|] eqn:HG.
    2:{ unfold Gateway_AddGate, Gate_listenTo. by repeat mstep. }
    destruct (gates (gateway w) !! gate_listenTo G) as [other|] eqn:Hg.
    { rewrite (run_Gateway_AddGate_dup _ _ _ _ HG Hg). simpl. by intros [= _ <-]. }
    destruct (run_Gateway_AddGate_fresh gate G w HG Hg)
      as (t & w1 & Hrun & Hgates & Hobjs & _ & _).
    rewrite Hrun. cbn [snd]. intros [= _ <-].
    intros a ga. rewrite Hgates, Hobjs. simpl.
    destruct (decide (a = gate_listenTo G)) as [->|Ha].
    + rewrite lookup_insert_eq. intros [= <-]. by rewrite lookup_insert_eq.
    + rewrite lookup_insert_ne by done. intros Hga.
      destruct (gates_keyed_lookup _ _ _ Hk Hga) as (Ga & HGa & HGal).
      rewrite lookup_insert_ne by congruence. by rewrite HGa, <- HGal.
  - intros addr w'. unfold outcome.
    destruct (gates (gateway w) !! addr) as [gate|] eqn:Hg.
    + destruct (gateObjs (heap w) !! gate) as [G|] eqn:HG.
      * rewrite (run_Gateway_RemoveGate_registered _ _ _ _ Hg HG). simpl.
        intros [= <-].
        assert (Hk1 : gates_keyed (upd_gate gate (set_gate_closed true G) w))
          by (by eapply gates_keyed_upd_gate).
        intros a ga Hga. wsimp.
        apply lookup_delete_Some in Hga as [_ Hga]. exact (Hk1 a ga Hga).
      * by rewrite (run_Gateway_RemoveGate_nil _ _ _ Hg HG).
    + unfold Gateway_RemoveGate. repeat mstep. rewrite Hg. simpl. by intros [= <-].
  - intros proxy r w'. by apply Gateway_AddProxy_keyed.
  - intros addr domainName w'. by apply Gateway_RemoveProxy_keyed.
  - intros proxy P cfg r w' HP Hne. unfold outcome.
    destruct (validateConfig cfg) as [e|] eqn:Hv.
    { rewrite (run_Gateway_UpdateProxy_invalid _ _ _ _ _ HP Hne Hv). simpl.
      by intros [= _ <-]. }
    set (w1 := upd_proxy proxy (configured cfg) w).
    assert (Hk1 : gates_keyed w1) by done.
    destruct (gates (gateway w) !! ListenTo cfg) as [gB|] eqn:HgB.
    + rewrite (run_Gateway_UpdateProxy_gate _ _ _ _ _ HP Hne HgB Hv). fold w1.
      cbn [after_trace snd]. intros Hret.
      apply outcome_bind_Ret in Hret as ([err|] & w2 & Hadd & Hret).
      * apply Gate_AddProxy_keyed in Hadd; [|done].
        unfold outcome in Hret. simpl in Hret. by injection Hret as _ <-.
      * apply Gate_AddProxy_keyed in Hadd; [|done].
        apply outcome_bind_Ret in Hret as ([] & w3 & Hrem & Hret).
        apply Gate_RemoveProxy_keyed in Hrem; [|done].
        unfold outcome in Hret. simpl in Hret. by injection Hret as _ <-.
    + rewrite (run_Gateway_UpdateProxy_no_gate _ _ _ _ HP Hne HgB Hv). fold w1.
      cbn [after_trace snd]. intros Hret.
      apply outcome_bind_Ret in Hret as ([err|] & w2 & Hadd & Hret).
      * apply Gateway_AddProxy_keyed in Hadd; [|done].
        unfold outcome in Hret. simpl in Hret. by injection Hret as _ <-.
      * apply Gateway_AddProxy_keyed in Hadd; [|done].
        apply outcome_bind_Ret in Hret as ([] & w3 & Hrem & Hret).
        apply Gateway_RemoveProxy_keyed in Hrem; [|done].
        unfold outcome in Hret. simpl in Hret. by injection Hret as _ <-.
Qed.

End Routes.

(** ** Ranging over the gates: loggers and [Close] *)

Section Ranging.
Context `{C : Collaborators}.

Lemma updated_gates_lookup_other f entries objs g :
  g ∉ entries.*2 → updated_gates f entries objs !! g = objs !! g.
Proof.
  unfold updated_gates. revert objs.
  induction entries as [|[k g'] l IH]; intros objs Hnin; [done|].
  cbn in *. apply not_elem_of_cons in Hnin as [Hne Hnin].
  rewrite IH by done. by apply lookup_alter_ne.
Qed.

Lemma updated_gates_lookup_once f entries objs g :
  NoDup entries.*2 → g ∈ entries.*2 →
  updated_gates f entries objs !! g = f <$> objs !! g.
Proof.
  revert objs.
  induction entries as [|[k g'] l IH]; intros objs Hnd Hin; [by apply elem_of_nil in Hin|].
  cbn in *. apply NoDup_cons in Hnd as [Hnin Hnd].
  apply elem_of_cons in Hin as [->|Hin].
  - pose proof (updated_gates_lookup_other f l (alter f g' objs) g' Hnin) as Ho.
    unfold updated_gates in Ho. rewrite Ho. apply lookup_alter_eq.
  - unfold updated_gates in IH. rewrite IH by done.
    rewrite lookup_alter_ne; [done|]. by intros ->.
Qed.

Lemma updated_gates_lookup_idem f entries objs g :
  (∀ G, f (f G) = f G) → g ∈ entries.*2 →
  updated_gates f entries objs !! g = f <$> objs !! g.
Proof.
  intros Hidem. revert objs.
  induction entries as [|[k g'] l IH]; intros objs Hin; [by apply elem_of_nil in Hin|].
  cbn in *. destruct (decide (g ∈ l.*2)) as [Hl|Hl].
  - unfold updated_gates in IH. rewrite IH by done.
    rewrite lookup_alter. case_decide as Hg; [subst g'|done].
    destruct (objs !! g) as [G|]; simpl; [by rewrite Hidem|done].
  - apply elem_of_cons in Hin as [->|Hin]; [|done].
    pose proof (updated_gates_lookup_other f l (alter f g' objs) g' Hl) as Ho.
    unfold updated_gates in Ho. rewrite Ho. apply lookup_alter_eq.
Qed.

(** The range applies the method to the gate of every entry, in order,
    and touches nothing but gate objects. *)
Lemma run_forGates_gate_update f entries w :
  (∀ entry, entry ∈ entries → is_Some (gateObjs (heap w) !! entry.2)) →
  ∃ t w', forGates (gate_update f) entries w = (t, Ret tt w') ∧
    gateObjs (heap w') = updated_gates f entries (gateObjs (heap w)) ∧
    proxyObjs (heap w') = proxyObjs (heap w) ∧
    gateway w' = gateway w ∧ tasks w' = tasks w ∧ io w' = io w ∧
    Forall (λ s, gateway s = gateway w ∧ proxyObjs (heap s) = proxyObjs (heap w)) t.
Proof.
  revert w. induction entries as [|[k g] l IH]; intros w Halloc.
  { eexists _, _. split; [reflexivity|]. by repeat split. }
  destruct (Halloc (k, g)) as [G HG]; [by left|]. simpl in HG.
  destruct (IH (upd_gate g (f G) w)) as (t & w' & Hrun & Hobjs & Hprox & Hgw & Htasks & Hio & Ht).
  { intros entry Hin. wsimp.
    destruct (decide (g = entry.2)) as [->|Hne].
    - by rewrite lookup_insert_eq.
    - rewrite lookup_insert_ne by done. apply Halloc. by right. }
  exists (upd_gate g (f G) w :: t), w'. split.
  { cbn [forGates]. unfold gate_update at 1. repeat mstep. by rewrite Hrun. }
  wsimp. split; [|split; [done|split; [done|split; [done|split; [done|]]]]].
  - rewrite Hobjs. unfold updated_gates. cbn [foldl snd]. f_equal.
    apply map_eq. intros j. rewrite lookup_alter, lookup_insert.
    case_decide; [subst j; by rewrite HG|done].
  - by constructor.
Qed.

Lemma gates_entries_allocated w :
  gates_allocated w →
  ∀ entry, entry ∈ map_to_list (gates (gateway w)) →
           is_Some (gateObjs (heap w) !! entry.2).
Proof.
  intros Ha [k g] Hin. apply elem_of_map_to_list in Hin. exact (Ha k g Hin).
Qed.

Lemma gates_entries_NoDup w :
  gates_keyed w → NoDup (map_to_list (gates (gateway w))).*2.
Proof.
  intros Hk. apply NoDup_fmap_2_strong; [|apply NoDup_map_to_list].
  intros [k g] [k' g'] Hin Hin' Heq. simpl in Heq. subst g'.
  apply elem_of_map_to_list in Hin, Hin'.
  by rewrite (gates_keyed_inj w k k' g).
Qed.

Lemma gates_entries_elem w addr gate :
  gates (gateway w) !! addr = Some gate →
  gate ∈ (map_to_list (gates (gateway w))).*2.
Proof.
  intros Hg. apply list_elem_of_fmap. exists (addr, gate).
  split; [done|]. by apply elem_of_map_to_list.
Qed.

(** Changing gate objects without changing their routes changes no
    binding. *)
Lemma route_at_gate_objs w w' :
  gateway w' = gateway w →
  (∀ g, gate_proxies <$> gateObjs (heap w') !! g = gate_proxies <$> gateObjs (heap w) !! g) →
  ∀ a h, route_at w' a h = route_at w a h.
Proof.
  intros Hgw Hobjs a h. unfold route_at. rewrite Hgw.
  destruct (gates (gateway w) !! a) as [g|]; [|done].
  specialize (Hobjs g).
  destruct (gateObjs (heap w') !! g), (gateObjs (heap w) !! g); simpl in Hobjs;
    try done. by injection Hobjs as ->.
Qed.

Lemma updated_gates_proxies f entries objs g :
  (∀ G, gate_proxies (f G) = gate_proxies G) →
  gate_proxies <$> updated_gates f entries objs !! g = gate_proxies <$> objs !! g.
Proof.
  intros Hf. unfold updated_gates. revert objs.
  induction entries as [|[k g'] l IH]; intros objs; [done|].
  cbn. rewrite IH, lookup_alter. case_decide as Hg; [subst g'|done].
  destruct (objs !! g) as [G|]; simpl; [by rewrite Hf|done].
Qed.

(** X10. [Close()] closes every gate the gateway holds and deregisters
    none: the call returns, the gate object registered for each address is
    the former one with [closed] set, the gateway (its map of gates, its
    [running] flag, its wait group) is the same in every state passed
    through and at the end, and every route resolves as before. *)
Theorem Close_closes_every_gate_and_keeps_them (w : World) :
  gates_allocated w →
  ∃ w', outcome Gateway_Close w = Ret tt w' ∧
    gateway w' = gateway w ∧
    (∀ addr, gate_at w' addr = set_gate_closed true <$> gate_at w addr) ∧
    (∀ a h, route_at w' a h = route_at w a h) ∧
    Forall (λ s, gateway s = gateway w) (visited Gateway_Close w).
Proof.
  intros Ha. unfold outcome, visited, Gateway_Close. rewrite bind_getGateway.
  change (forGates Gate_Close) with (forGates (gate_update (set_gate_closed true))).
  destruct (run_forGates_gate_update (set_gate_closed true)
              (map_to_list (gates (gateway w))) w (gates_entries_allocated w Ha))
    as (t & w' & Hrun & Hobjs & Hprox & Hgw & _ & _ & Ht).
  rewrite Hrun. exists w'. split; [done|]. split; [done|].
  split; [|split].
  - intros addr. unfold gate_at. rewrite Hgw, Hobjs.
    destruct (gates (gateway w) !! addr) as [gate|] eqn:Hg; [|done].
    apply updated_gates_lookup_idem; [done|]. by eapply gates_entries_elem.
  - apply route_at_gate_objs; [done|]. intros g. rewrite Hobjs.
    by apply updated_gates_proxies.
  - eapply Forall_impl; [exact Ht|]. by intros s [? _].
Qed.

(** X11. [AddLoggerOutput(out)] appends [out] to the gateway's outputs,
    makes the gateway's logger write to all of them (keeping its context),
    and hands [out] to every registered gate, once each: on a registry
    whose gates are registered under their own address the call returns,
    the gate object of each address is the former one with [out] added,
    and the map of gates and every route are unchanged. *)
Theorem AddLoggerOutput_reaches_gateway_and_gates (out : Writer) (w : World) :
  gates_keyed w →
  ∃ w', outcome (Gateway_AddLoggerOutput out) w = Ret tt w' ∧
    loggerOutputs (gateway w') = loggerOutputs (gateway w) ++ [out] ∧
    logger (gateway w') =
      {| logger_out := MultiWriter (loggerOutputs (gateway w) ++ [out]);
         logger_ctx := logger_ctx (logger (gateway w)) |} ∧
    gates (gateway w') = gates (gateway w) ∧
    (∀ addr, gate_at w' addr = with_output out <$> gate_at w addr) ∧
    (∀ a h, route_at w' a h = route_at w a h).
Proof.
  intros Hk. unfold outcome, Gateway_AddLoggerOutput. repeat mstep.
  set (w2 := set_gateway _ (set_gateway _ w)).
  change (forGates (λ gate, Gate_AddLoggerOutput gate out))
    with (forGates (gate_update (with_output out))).
  destruct (run_forGates_gate_update (with_output out)
              (map_to_list (gates (gateway w))) w2
              (gates_entries_allocated w (gates_keyed_allocated w Hk)))
    as (t & w' & Hrun & Hobjs & Hprox & Hgw & _ & _ & _).
  rewrite Hrun. cbn [after_trace snd]. exists w'. split; [done|].
  rewrite Hgw. subst w2. wsimp. split; [done|]. split; [done|]. split; [done|].
  split.
  - intros addr. unfold gate_at. rewrite Hgw, Hobjs. wsimp.
    destruct (gates (gateway w) !! addr) as [gate|] eqn:Hg; [|done].
    apply updated_gates_lookup_once; [by apply gates_entries_NoDup|].
    by eapply gates_entries_elem.
  - intros a h. unfold route_at. rewrite Hgw. wsimp.
    destruct (gates (gateway w) !! a) as [g|]; [|done].
    pose proof (updated_gates_proxies (with_output out)
                  (map_to_list (gates (gateway w))) (gateObjs (heap w)) g
                  (λ _, eq_refl)) as Hp.
    rewrite Hobjs. wsimp.
    destruct (updated_gates _ _ _ !! g), (gateObjs (heap w) !! g); simpl in Hp;
      try done. by injection Hp as ->.
Qed.

(** X12. [overrideLogger(l)] keeps the registered outputs: the logger it
    installs in the gateway, returns, and pushes to every registered gate
    carries the context of [l] but writes to the outputs that were
    registered, not to the output of [l]. The list of outputs, the map of
    gates and every route are unchanged. *)
Theorem overrideLogger_keeps_outputs (l : Logger) (w : World) :
  gates_keyed w →
  ∃ w', outcome (Gateway_overrideLogger l) w =
          Ret {| logger_out := MultiWriter (loggerOutputs (gateway w));
                 logger_ctx := logger_ctx l |} w' ∧
    logger (gateway w') =
      {| logger_out := MultiWriter (loggerOutputs (gateway w));
         logger_ctx := logger_ctx l |} ∧
    loggerOutputs (gateway w') = loggerOutputs (gateway w) ∧
    gates (gateway w') = gates (gateway w) ∧
    (∀ addr, gate_at w' addr = with_logger l <$> gate_at w addr) ∧
    (∀ a h, route_at w' a h = route_at w a h).
Proof.
  intros Hk. unfold outcome, Gateway_overrideLogger. repeat mstep.
  set (w2 := set_gateway _ w).
  change (forGates (λ gate, Gate_overrideLogger gate l))
    with (forGates (gate_update (with_logger l))).
  destruct (run_forGates_gate_update (with_logger l)
              (map_to_list (gates (gateway w))) w2
              (gates_entries_allocated w (gates_keyed_allocated w Hk)))
    as (t & w' & Hrun & Hobjs & Hprox & Hgw & _ & _ & _).
  erewrite (bind_run _ _ _ _ _ _ Hrun). repeat mstep.
  cbn [after_trace ret snd]. exists w'. rewrite Hgw. subst w2. wsimp.
  split; [done|]. split; [done|]. split; [done|]. split; [done|]. split.
  - intros addr. unfold gate_at. rewrite Hgw, Hobjs. wsimp.
    destruct (gates (gateway w) !! addr) as [gate|] eqn:Hg; [|done].
    apply updated_gates_lookup_once; [by apply gates_entries_NoDup|].
    by eapply gates_entries_elem.
  - intros a h. unfold route_at. rewrite Hgw. wsimp.
    destruct (gates (gateway w) !! a) as [g|]; [|done].
    pose proof (updated_gates_proxies (with_logger l)
                  (map_to_list (gates (gateway w))) (gateObjs (heap w)) g
                  (λ _, eq_refl)) as Hp.
    rewrite Hobjs. wsimp.
    destruct (updated_gates _ _ _ !! g), (gateObjs (heap w) !! g); simpl in Hp;
      try done. by injection Hp as ->.
Qed.

End Ranging.

(** ** Serving: [ListenAndServe] under every schedule *)

Section Schedules.
Context `{C : Collaborators}.

(** A log line changes nothing but the output, whether it is written or
    dropped. *)
Lemma bind_logMsg_emitted l lvl fields err msg w :
  ∃ t0 w0,
    (∀ B (k : unit → M B), bind (logMsg l lvl fields err msg) k w = after_trace t0 (k tt w0)) ∧
    heap w0 = heap w ∧ gateway w0 = gateway w ∧ tasks w0 = tasks w ∧
    globalLevel w0 = globalLevel w ∧
    io w0 = io w ++ emitted (globalLevel w) l lvl fields err msg ∧
    Forall (λ s, heap s = heap w ∧ gateway s = gateway w ∧ tasks s = tasks w) t0.
Proof.
  unfold emitted.
  destruct (decide (Level_rank (globalLevel w) ≤ Level_rank lvl)) as [Hl|Hl].
  - exists [written l lvl fields err msg w], (written l lvl fields err msg w).
    split; [intros B k; by apply bind_logMsg_written|].
    repeat split; by repeat constructor.
  - exists [], w. split; [intros B k; rewrite after_trace_nil; by apply bind_logMsg_dropped|].
    rewrite app_nil_r. repeat split; by repeat constructor.
Qed.

Lemma outcome_logMsg l lvl fields err msg w w0 :
  outcome (logMsg l lvl fields err msg) w = Ret tt w0 →
  heap w0 = heap w ∧ gateway w0 = gateway w.
Proof.
  destruct (bind_logMsg_emitted l lvl fields err msg w)
    as (t0 & w1 & Hlog & Hheap & Hgw & _).
  unfold outcome. rewrite <- (bind_ret_r (logMsg _ _ _ _ _)), Hlog.
  cbn [after_trace ret snd]. by intros [= <-].
Qed.

Lemma held_app gs1 gs2 : held (gs1 ++ gs2) = held gs1 ++ held gs2.
Proof. unfold held. by rewrite filter_app, fmap_app. Qed.

Lemma held_cons g gs :
  held (g :: gs) = (if decide (gr_stage g = Deleted) then [] else [gr_listenTo g]) ++ held gs.
Proof.
  unfold held. rewrite filter_cons.
  destruct (decide (gr_stage g = Deleted)) as [He|He].
  - by rewrite decide_False by (by intros Hn).
  - by rewrite decide_True by done.
Qed.

Lemma held_at gs1 addr st gs2 :
  held (gs1 ++ mkGoroutine addr st :: gs2) =
  held gs1 ++ (if decide (st = Deleted) then [] else [addr]) ++ held gs2.
Proof. by rewrite held_app, held_cons. Qed.

(** A state with a goroutine is one of the loop or of the wait. *)
Lemma serve_inv_goroutine w s :
  serve_inv w s → goroutines s ≠ [] → caller s ≠ Crashed →
  serve_live w s ∧ ((∃ pending, caller s = Ranging pending) ∨ caller s = Waiting).
Proof.
  unfold serve_inv. intros Hinv Hgs Hc.
  destruct (caller s) as [|pending| |[err|]|] eqn:Hcaller; try done.
  - by subst s.
  - split; [done|]. left. by eexists.
  - split; [done|]. by right.
  - by destruct Hinv as (_ & ? & _).
  - destruct Hinv as (_ & _ & _ & Hnil & _). by rewrite Hnil in Hgs.
Qed.

Lemma filter_other_key (addr : string) (pending : list (string * ptr)) :
  addr ∉ pending.*1 → filter (λ entry, entry.1 ≠ addr) pending = pending.
Proof.
  induction pending as [|[k g] l IH]; [done|]. cbn [fmap list_fmap fst].
  rewrite not_elem_of_cons. intros [Hne Hl]. rewrite filter_cons.
  rewrite decide_True by (cbn; congruence). by rewrite IH.
Qed.

Lemma serve_live_loop_end w c gs1 addr gs2 w1 :
  serving_ends addr →
  serve_live w (mkServing c (gs1 ++ mkGoroutine addr Listening :: gs2) w1) →
  serve_live w (mkServing c (gs1 ++ mkGoroutine addr Ended :: gs2) w1).
Proof.
  unfold serve_live, keys_held. cbn [caller goroutines world].
  rewrite !held_at, !length_app. cbn [length].
  rewrite !decide_False by done.
  intros Hends (Hheap & Hwg & Hrunning & Hret & Hnodup & Hpend & Hin & Hout & Hserves).
  split; [done|]. split; [done|]. split; [done|]. split.
  { intros Hc. specialize (Hret Hc). by destruct gs1. }
  split; [done|]. split; [done|]. split; [done|]. split; [done|].
  intros a Ha Hn. destruct (Hserves a Ha Hn) as [Hp|Hg]; [by left|right].
  rewrite elem_of_app, elem_of_cons in Hg. rewrite elem_of_app, elem_of_cons.
  destruct Hg as [Hg|[Hg|Hg]]; [by left| |by right; right].
  injection Hg as ->. by destruct Hn.
Qed.

Lemma serve_live_delete w c gs1 addr gs2 w1 :
  serve_live w (mkServing c (gs1 ++ mkGoroutine addr Ended :: gs2) w1) →
  serve_live w (mkServing (after_delete addr c) (gs1 ++ mkGoroutine addr Deleted :: gs2)
                          (set_gateway (set_gates (delete addr)) w1)).
Proof.
  unfold serve_live, keys_held. cbn [caller goroutines world].
  rewrite !held_at, !length_app. cbn [length]. wsimp.
  rewrite decide_False by done. rewrite decide_True by done.
  intros (Hheap & Hwg & Hrunning & Hret & Hnodup & Hpend & Hin & Hout & Hserves).
  apply NoDup_app in Hnodup as (Hnp & Hdisj & Hng).
  apply NoDup_app in Hng as (Hn1 & Hdisj1 & Hn2).
  apply NoDup_cons in Hn2 as [Hn2 Hn3]. cbn [app] in *.
  assert (Hfresh : addr ∉ (pending_of c).*1).
  { intros Hp. apply (Hdisj _ Hp). rewrite elem_of_app, elem_of_cons. auto. }
  assert (Hcaller : pending_of (after_delete addr c) = pending_of c).
  { destruct c; try done. cbn. by apply filter_other_key. }
  assert (Hfresh1 : addr ∉ held gs1).
  { intros Hg. apply (Hdisj1 _ Hg). by left. }
  rewrite Hcaller.
  split; [done|]. split; [done|]. split; [by destruct c|]. split.
  { intros Hc. destruct c as [| | |r|]; try done. cbn in Hc. specialize (Hret Hc). by destruct gs1. }
  split.
  { apply NoDup_app. split; [done|]. split.
    - intros a Ha Hg. apply (Hdisj a Ha). rewrite elem_of_app, elem_of_cons.
      rewrite elem_of_app in Hg. tauto.
    - apply NoDup_app. split; [done|]. split; [|done].
      intros a Ha Hg. apply (Hdisj1 a Ha). by right. }
  split; [done|]. split.
  { intros a Ha. assert (a ≠ addr).
    { intros ->. rewrite !elem_of_app in Ha. tauto. }
    rewrite lookup_delete_ne by done. apply Hin.
    rewrite !elem_of_app, elem_of_cons. rewrite !elem_of_app in Ha. tauto. }
  split.
  { intros a Ha. destruct (decide (a = addr)) as [->|Hne].
    - apply lookup_delete_eq.
    - rewrite lookup_delete_ne by done. apply Hout.
      rewrite !elem_of_app, elem_of_cons. rewrite !elem_of_app in Ha. tauto. }
  intros a Ha Hn. destruct (Hserves a Ha Hn) as [Hp|Hg]; [by left|right].
  rewrite elem_of_app, elem_of_cons in Hg. rewrite elem_of_app, elem_of_cons.
  destruct Hg as [Hg|[Hg|Hg]]; [by left|done|by right; right].
Qed.

Lemma serve_live_done w c gs1 addr gs2 w1 :
  serve_live w (mkServing c (gs1 ++ mkGoroutine addr Deleted :: gs2) w1) →
  serve_live w (mkServing c (gs1 ++ gs2) (set_gateway (set_wg Nat.pred) w1)).
Proof.
  unfold serve_live, keys_held. cbn [caller goroutines world].
  rewrite !held_at, !held_app, !length_app. cbn [length]. wsimp.
  rewrite decide_True by done. cbn [app].
  intros (Hheap & Hwg & Hrunning & Hret & Hnodup & Hpend & Hin & Hout & Hserves).
  split; [done|]. split; [rewrite Hwg; lia|]. split; [done|]. split.
  { intros Hc. specialize (Hret Hc). by destruct gs1. }
  split; [done|]. split; [done|]. split; [done|]. split; [done|].
  intros a Ha Hn. destruct (Hserves a Ha Hn) as [Hp|Hg]; [by left|right].
  rewrite elem_of_app, elem_of_cons in Hg. rewrite elem_of_app.
  destruct Hg as [Hg|[Hg|Hg]]; [by left|done|by right].
Qed.

Lemma serve_live_spawn w addr gate G rest gs w1 :
  gates_keyed w →
  gateObjs (heap w1) !! gate = Some G →
  serve_live w (mkServing (Ranging ((addr, gate) :: rest)) gs w1) →
  gate_listenTo G = addr ∧
  serve_live w (mkServing (Ranging rest) (gs ++ [mkGoroutine (gate_listenTo G) Listening])
                          (set_gateway (set_wg (λ c, c + 1)) w1)).
Proof.
  unfold serve_live, keys_held. cbn [caller goroutines world pending_of].
  rewrite !held_at, !length_app. cbn [length held fmap list_fmap filter list_filter fst]. wsimp.
  rewrite decide_False by done. rewrite app_nil_r.
  intros Hk HG (Hheap & Hwg & Hrunning & Hret & Hnodup & Hpend & Hin & Hout & Hserves).
  assert (Haddr : gate_listenTo G = addr).
  { pose proof (Hk addr gate (Hpend addr gate (list_elem_of_here _ _))) as Hgate.
    cbn in Hgate. rewrite <- Hheap, HG in Hgate. by injection Hgate. }
  split; [done|]. rewrite Haddr.
  assert (Hperm : rest.*1 ++ held gs ++ [addr] ≡ₚ addr :: rest.*1 ++ held gs).
  { rewrite app_assoc. by rewrite <- Permutation_cons_append. }
  split; [done|]. split; [rewrite Hwg; lia|]. split; [done|]. split; [done|].
  split; [by rewrite Hperm|]. split.
  { intros a g Hag. apply Hpend. by right. }
  split; [intros a Ha; apply Hin; by rewrite <- Hperm|].
  split; [intros a Ha; apply Hout; by rewrite <- Hperm|].
  intros a Ha Hn. destruct (Hserves a Ha Hn) as [Hp|Hg].
  - apply elem_of_cons in Hp as [->|Hp]; [right|by left].
    apply elem_of_app. right. apply list_elem_of_here.
  - right. apply elem_of_app. by left.
Qed.

Lemma serve_live_range_end w gs w1 :
  serve_live w (mkServing (Ranging []) gs w1) → serve_live w (mkServing Waiting gs w1).
Proof.
  unfold serve_live, keys_held. cbn [caller goroutines world pending_of].
  intros (Hheap & Hwg & Hrunning & Hret & Hrest).
  split; [done|]. split; [done|]. split; [done|]. split; done.
Qed.

Lemma serve_live_return w gs w1 :
  wg (gateway w1) = 0 →
  serve_live w (mkServing Waiting gs w1) →
  serve_live w (mkServing (Returned None) gs (set_gateway (set_running false) w1)).
Proof.
  unfold serve_live, keys_held. cbn [caller goroutines world pending_of]. wsimp.
  intros Hzero (Hheap & Hwg & Hrunning & Hret & Hnodup & Hpend & Hin & Hout & Hserves).
  split; [done|]. split; [done|]. split; [done|]. split; [|done].
  intros _. apply nil_length_inv. by rewrite <- Hwg.
Qed.

Lemma serve_live_enter w w0 pending :
  wg (gateway w) = 0 →
  heap w0 = heap w → gateway w0 = gateway w →
  pending ≡ₚ map_to_list (gates (gateway w0)) →
  serve_live w (mkServing (Ranging pending) [] (set_gateway (set_running true) w0)).
Proof.
  unfold serve_live, keys_held. cbn [caller goroutines world pending_of held]. wsimp.
  intros Hwg Hheap Hgw Hperm. rewrite Hgw in *. cbn. rewrite app_nil_r.
  assert (Hkeys : ∀ a, a ∈ pending.*1 ↔ is_Some (gates (gateway w) !! a)).
  { intros a. rewrite Hperm. rewrite list_elem_of_fmap. split.
    - intros ([k g] & -> & Hkg). apply elem_of_map_to_list in Hkg. by eexists.
    - intros [g Hg]. exists (a, g). split; [done|]. by apply elem_of_map_to_list. }
  split; [done|]. split; [done|]. split; [done|]. split; [done|].
  split; [rewrite Hperm; apply NoDup_fst_map_to_list|].
  split; [intros a g Hag; apply elem_of_map_to_list; by rewrite <- Hperm|].
  split; [done|]. split.
  { intros a Ha. apply eq_None_not_Some. by rewrite <- Hkeys. }
  intros a Ha _. left. by apply Hkeys.
Qed.

(** Every step of the caller or of a goroutine keeps what holds of the
    call. *)
Lemma serve_inv_step w s s' :
  gates_keyed w → wg (gateway w) = 0 →
  serve_inv w s → serve_step s s' → serve_inv w s'.
Proof.
  intros Hk Hwg Hinv Hstep.
  destruct Hstep as
    [ gs w1 w0 Hlog Hsize | gs w1 w0 pending Hlog Hsize Hperm
    | addr gate G rest gs w1 HG | addr gate rest gs w1 HG | gs w1
    | c gs1 addr gs2 w1 Hc Hends | c gs1 addr gs2 w1 Hc
    | c gs1 addr gs2 w1 Hc Hrace | c gs1 addr gs2 w1 Hc Hcount
    | c gs1 addr gs2 w1 Hc Hcount | gs w1 Hzero ].
  - unfold serve_inv in *. cbn [caller goroutines world] in *.
    injection Hinv as -> ->. destruct (outcome_logMsg _ _ _ _ _ _ _ Hlog) as [Hheap Hgw].
    split; [done|]. split; [done|]. split; [|done].
    rewrite Hgw in Hsize. apply map_size_empty_iff. lia.
  - unfold serve_inv in *. cbn [caller goroutines world] in *.
    injection Hinv as -> ->. destruct (outcome_logMsg _ _ _ _ _ _ _ Hlog) as [Hheap Hgw].
    by apply serve_live_enter.
  - by apply (serve_live_spawn w addr gate G rest gs w1).
  - done.
  - by apply serve_live_range_end.
  - destruct (serve_inv_goroutine w _ Hinv) as [Hlive Hcaller];
      [by destruct gs1|done|].
    apply (serve_live_loop_end _ _ _ _ _ _ Hends) in Hlive.
    cbn [caller] in Hcaller. by destruct Hcaller as [[pending ->]| ->].
  - destruct (serve_inv_goroutine w _ Hinv) as [Hlive Hcaller];
      [by destruct gs1|done|].
    apply serve_live_delete in Hlive.
    cbn [caller] in Hcaller. by destruct Hcaller as [[pending ->]| ->].
  - done.
  - destruct (serve_inv_goroutine w _ Hinv) as [Hlive Hcaller];
      [by destruct gs1|done|].
    apply serve_live_done in Hlive.
    cbn [caller] in Hcaller. by destruct Hcaller as [[pending ->]| ->].
  - done.
  - by apply serve_live_return.
Qed.

Lemma serve_inv_reached w s :
  gates_keyed w → wg (gateway w) = 0 →
  rtc serve_step (serving w) s → serve_inv w s.
Proof.
  intros Hk Hwg Hreach. revert s Hreach.
  apply (rtc_ind_r (serve_inv w) (serving w)); [done|].
  intros s1 s2 _ Hstep Hinv. by eapply serve_inv_step.
Qed.

Lemma held_Listening addr gs : mkGoroutine addr Listening ∈ gs → addr ∈ held gs.
Proof.
  intros Hin. unfold held. apply list_elem_of_fmap. exists (mkGoroutine addr Listening).
  split; [done|]. by apply list_elem_of_filter.
Qed.

(** With no gate, [ListenAndServe] has one schedule: it returns
    [ErrNoGateInGateway] at once. *)
Lemma serve_empty_reached w s :
  gates (gateway w) = ∅ →
  rtc serve_step (serving w) s →
  s = serving w ∨
  ∃ w0, s = mkServing (Returned (Some ErrNoGateInGateway)) [] w0 ∧
        heap w0 = heap w ∧ gateway w0 = gateway w.
Proof.
  intros Hempty. revert s. apply rtc_ind_r; [by left|].
  intros s1 s2 _ Hstep [->|(w0 & -> & Hheap & Hgw)].
  - right. inversion Hstep as
      [ gs w1 w0 Hlog Hsize | gs w1 w0 pending Hlog Hsize Hperm
      | | | | c gs1 | c gs1 | c gs1 | c gs1 | c gs1 | ]; subst;
      try (by destruct gs1).
    + destruct (outcome_logMsg _ _ _ _ _ _ _ Hlog) as [Hheap Hgw]. by exists w0.
    + destruct (outcome_logMsg _ _ _ _ _ _ _ Hlog) as [Hheap Hgw].
      destruct Hsize. by rewrite Hgw, Hempty, map_size_empty.
  - exfalso. inversion Hstep as
      [ | | | | | c gs1 | c gs1 | c gs1 | c gs1 | c gs1 | ]; subst; by destruct gs1.
Qed.

(** The schedule in which the caller first starts every goroutine ... *)
Lemma serve_schedule_spawns (P : string → Prop) pending gs w1 :
  (∀ addr gate, (addr, gate) ∈ pending →
     ∃ G, gateObjs (heap w1) !! gate = Some G ∧ P (gate_listenTo G)) →
  ∃ gs' w2,
    rtc serve_step (mkServing (Ranging pending) gs w1) (mkServing Waiting (gs ++ gs') w2) ∧
    length gs' = length pending ∧
    Forall (λ g, gr_stage g = Listening ∧ P (gr_listenTo g)) gs' ∧
    heap w2 = heap w1 ∧ wg (gateway w2) = wg (gateway w1) + length pending.
Proof.
  revert gs w1. induction pending as [|[addr gate] rest IH]; intros gs w1 Halloc.
  { exists [], w1. rewrite app_nil_r. split; [apply rtc_once, serve_range_end|].
    cbn. repeat split; [by constructor|lia]. }
  destruct (Halloc addr gate (list_elem_of_here _ _)) as (G & HG & Hends).
  destruct (IH (gs ++ [mkGoroutine (gate_listenTo G) Listening])
               (set_gateway (set_wg (λ c, c + 1)) w1))
    as (gs' & w2 & Hreach & Hlen & Hstages & Hheap & Hwg).
  { intros a g Hag. wsimp. apply (Halloc a g). by right. }
  exists (mkGoroutine (gate_listenTo G) Listening :: gs'), w2.
  split.
  { eapply rtc_l; [by apply serve_spawn|]. by rewrite <- app_assoc in Hreach. }
  wsimp. cbn [length]. split; [by rewrite Hlen|]. split; [by constructor|].
  split; [done|]. rewrite Hwg. lia.
Qed.

(** It takes the caller into [wg.Wait()], every goroutine serving. *)
Lemma serve_schedule_waits (P : string → Prop) w :
  gates_keyed w → gates (gateway w) ≠ ∅ →
  (∀ addr, is_Some (gates (gateway w) !! addr) → P addr) →
  ∃ gs w1, rtc serve_step (serving w) (mkServing Waiting gs w1) ∧
    Forall (λ g, gr_stage g = Listening ∧ P (gr_listenTo g)) gs ∧
    wg (gateway w1) = wg (gateway w) + length gs.
Proof.
  intros Hk Hne HP.
  destruct (bind_logMsg_emitted (logger (gateway w)) InfoLevel [] None "Starting gateway" w)
    as (t0 & w0 & Hlog & Hheap0 & Hgw0 & _).
  assert (Hout : outcome (logMsg (logger (gateway w)) InfoLevel [] None "Starting gateway") w =
                 Ret tt w0).
  { unfold outcome. by rewrite <- (bind_ret_r (logMsg _ _ _ _ _)), Hlog. }
  destruct (serve_schedule_spawns P (map_to_list (gates (gateway w0))) []
              (set_gateway (set_running true) w0))
    as (gs & w1 & Hspawned & Hlen & Hall & Hheap1 & Hwg1).
  { intros addr gate Hin. apply elem_of_map_to_list in Hin. rewrite Hgw0 in Hin.
    wsimp. rewrite Hheap0. pose proof (Hk addr gate Hin) as Hgate. cbn in Hgate.
    destruct (gateObjs (heap w) !! gate) as [G|]; [|done]. injection Hgate as Hgate.
    exists G. split; [done|]. rewrite Hgate. apply HP. by exists gate. }
  exists gs, w1. split; [|split; [done|]].
  - eapply rtc_l; [|exact Hspawned].
    apply (serve_enter [] w w0 (map_to_list (gates (gateway w0)))); [done| |done].
    rewrite Hgw0. intros Hsize. apply Hne, map_size_empty_iff. lia.
  - rewrite Hwg1, Hlen. wsimp. by rewrite Hgw0.
Qed.

(** ... and then the goroutines, whose accept loops all end, run to their
    end one after another. *)
Lemma serve_schedule_finishes gs w1 :
  Forall (λ g, gr_stage g = Listening ∧ serving_ends (gr_listenTo g)) gs →
  wg (gateway w1) = length gs →
  ∃ w2, rtc serve_step (mkServing Waiting gs w1) (mkServing Waiting [] w2) ∧
    heap w2 = heap w1 ∧ wg (gateway w2) = 0.
Proof.
  revert w1. induction gs as [|[addr st] gs IH]; intros w1 Hall Hwg.
  { by exists w1. }
  apply Forall_cons in Hall as [[Hst Hends] Hall]. cbn in Hst, Hends. subst st.
  destruct (IH (set_gateway (set_wg Nat.pred) (set_gateway (set_gates (delete addr)) w1)))
    as (w2 & Hreach & Hheap & Hzero); [done|wsimp; rewrite Hwg; cbn; lia|].
  exists w2. split; [|done].
  eapply rtc_l; [by apply (serve_loop_end Waiting [] addr gs w1)|].
  eapply rtc_l; [by apply (serve_delete Waiting [] addr gs w1)|].
  eapply rtc_l; [|exact Hreach].
  apply (serve_done Waiting [] addr gs). { done. } wsimp. rewrite Hwg. cbn. lia.
Qed.

(** When every accept loop ends, that schedule takes the call to
    [return nil]. *)
Lemma serve_schedule_returns w :
  gates_keyed w → wg (gateway w) = 0 → gates (gateway w) ≠ ∅ →
  (∀ addr, is_Some (gates (gateway w) !! addr) → serving_ends addr) →
  ∃ s, rtc serve_step (serving w) s ∧ caller s = Returned None.
Proof.
  intros Hk Hwg Hne Hends.
  destruct (serve_schedule_waits serving_ends w Hk Hne Hends)
    as (gs & w1 & Hwaits & Hall & Hwg1).
  destruct (serve_schedule_finishes gs w1 Hall) as (w2 & Hfinished & _ & Hzero).
  { by rewrite Hwg1, Hwg. }
  exists (mkServing (Returned None) [] (set_gateway (set_running false) w2)).
  split; [|done].
  etrans; [exact Hwaits|]. etrans; [exact Hfinished|].
  apply rtc_once. by apply serve_return.
Qed.

(** At [return nil] there is no gate left. *)
Lemma serve_returned_empty w s :
  gates_keyed w → wg (gateway w) = 0 →
  rtc serve_step (serving w) s → caller s = Returned None →
  gates (gateway (world s)) = ∅.
Proof.
  intros Hk Hwg Hreach Hret.
  pose proof (serve_inv_reached w s Hk Hwg Hreach) as Hinv.
  unfold serve_inv in Hinv. rewrite Hret in Hinv.
  destruct Hinv as (_ & _ & _ & Hnil & _ & _ & _ & Hout & _).
  specialize (Hnil Hret).
  unfold keys_held in Hout. rewrite Hret, Hnil in Hout. cbn in Hout.
  apply map_eq. intros addr. rewrite lookup_empty. apply Hout, not_elem_of_nil.
Qed.

(** ... and the call made again returns [ErrNoGateInGateway]. *)
Lemma serve_schedule_returns_again w :
  gates_keyed w → wg (gateway w) = 0 → gates (gateway w) ≠ ∅ →
  (∀ addr, is_Some (gates (gateway w) !! addr) → serving_ends addr) →
  ∃ s s2, rtc serve_step (serving w) s ∧ caller s = Returned None ∧
    rtc serve_step (serving (world s)) s2 ∧
    caller s2 = Returned (Some ErrNoGateInGateway).
Proof.
  intros Hk Hwg Hne Hends.
  destruct (serve_schedule_returns w Hk Hwg Hne Hends) as (s & Hreach & Hret).
  pose proof (serve_returned_empty w s Hk Hwg Hreach Hret) as Hempty.
  destruct (bind_logMsg_emitted (logger (gateway (world s))) InfoLevel [] None
              "Starting gateway" (world s))
    as (t0 & w0 & Hlog & _ & Hgw0 & _).
  exists s, (mkServing (Returned (Some ErrNoGateInGateway)) [] w0).
  split; [done|]. split; [done|]. split; [|done].
  apply rtc_once, serve_enter_empty.
  - unfold outcome. by rewrite <- (bind_ret_r (logMsg _ _ _ _ _)), Hlog.
  - by rewrite Hgw0, Hempty, map_size_empty.
Qed.

(** X13. Under every schedule of the caller and the goroutines,
    [ListenAndServe()] on a gateway that is not being served returns [nil]
    only once the accept loop of every gate it held has ended and every
    goroutine has deleted its gate and called [Done]: at the return
    [gateway.gates] is empty, [running] is false again, the wait group is
    at zero, no goroutine is left and the gate objects are untouched. *)
Theorem ListenAndServe_returns_nil_only_when_emptied (w : World) (s : Serving)
  (Hk : gates_keyed w) (Hwg : wg (gateway w) = 0)
  (Hreach : rtc serve_step (serving w) s) (Hret : caller s = Returned None) :
  gates (gateway (world s)) = ∅ ∧ running (gateway (world s)) = false ∧
  wg (gateway (world s)) = 0 ∧ goroutines s = [] ∧ heap (world s) = heap w ∧
  ∀ addr, is_Some (gates (gateway w) !! addr) → serving_ends addr.
Proof.
  pose proof (serve_inv_reached w s Hk Hwg Hreach) as Hinv.
  unfold serve_inv in Hinv. rewrite Hret in Hinv.
  destruct Hinv as (Hheap & Hcount & Hrunning & Hnil & _ & _ & _ & Hout & Hserves).
  rewrite Hret in Hrunning, Hserves. specialize (Hnil Hret).
  unfold keys_held in Hout. rewrite Hret, Hnil in Hout. cbn in Hout.
  rewrite Hnil in Hcount, Hserves. cbn in Hserves.
  split. { apply map_eq. intros addr. rewrite lookup_empty. apply Hout, not_elem_of_nil. }
  split; [done|]. split; [done|]. split; [done|]. split; [done|].
  intros addr Hreg. destruct (decide (serving_ends addr)) as [He|He]; [done|].
  destruct (Hserves addr Hreg He) as [Hin|Hin]; by apply elem_of_nil in Hin.
Qed.

(** X14. Under every schedule, [ListenAndServe()] does not return while
    the accept loop of a gate it held when it started never ends; and as
    long as the process lives, from the range loop on, [running] is set,
    that gate is registered as before and the gate objects are
    untouched. *)
Theorem ListenAndServe_never_returns_while_a_gate_serves (w : World) (addr : string)
    (s : Serving)
  (Hk : gates_keyed w) (Hwg : wg (gateway w) = 0)
  (Hreg : is_Some (gates (gateway w) !! addr)) (Hserves : ¬ serving_ends addr)
  (Hreach : rtc serve_step (serving w) s) :
  (∀ r, caller s ≠ Returned r) ∧
  (caller s ≠ Entered → caller s ≠ Crashed →
     running (gateway (world s)) = true ∧
     gates (gateway (world s)) !! addr = gates (gateway w) !! addr ∧
     wg (gateway (world s)) = length (goroutines s) ∧
     heap (world s) = heap w).
Proof.
  pose proof (serve_inv_reached w s Hk Hwg Hreach) as Hinv.
  unfold serve_inv in Hinv.
  assert (Hlive : serve_live w s → ∀ r, caller s ≠ Returned r).
  { intros (_ & _ & _ & Hnil & _ & _ & _ & _ & Hheld) r Hr.
    destruct (Hheld addr Hreg Hserves) as [Hin|Hin].
    - rewrite Hr in Hin. by apply elem_of_nil in Hin.
    - destruct r as [err|].
      + rewrite Hr in Hinv. destruct Hinv as (_ & Hgs & _).
        rewrite Hgs in Hin. by apply elem_of_nil in Hin.
      + rewrite (Hnil Hr) in Hin. by apply elem_of_nil in Hin. }
  assert (Hfacts : serve_live w s → (∀ r, caller s ≠ Returned r) →
            running (gateway (world s)) = true ∧
            gates (gateway (world s)) !! addr = gates (gateway w) !! addr ∧
            wg (gateway (world s)) = length (goroutines s) ∧
            heap (world s) = heap w).
  { intros (Hheap & Hcount & Hrunning & _ & _ & _ & Hin & _ & Hheld) Hnot.
    split; [by destruct (caller s) as [| | |r|]; try done; destruct (Hnot r)|].
    split; [|done]. apply Hin. unfold keys_held. apply elem_of_app.
    destruct (Hheld addr Hreg Hserves) as [Hp|Hg]; [by left|right].
    by apply held_Listening. }
  destruct (caller s) as [|pending| |[err|]|] eqn:Hcaller.
  - done.
  - split; [done|]. intros _ _. by apply Hfacts.
  - split; [done|]. intros _ _. by apply Hfacts.
  - destruct Hinv as (_ & _ & Hempty & _). rewrite Hempty, lookup_empty in Hreg.
    by destruct Hreg.
  - by destruct (Hlive Hinv None).
  - done.
Qed.

(** X15. A gateway cannot be served twice: under every schedule, once
    [ListenAndServe()] has returned [nil], a second call on the same
    gateway can only return [ErrNoGateInGateway], leaving the gateway
    empty and not running and the gate objects as they were. *)
Theorem ListenAndServe_again_finds_no_gate (w : World) (s s2 : Serving)
  (Hk : gates_keyed w) (Hwg : wg (gateway w) = 0)
  (Hreach : rtc serve_step (serving w) s) (Hret : caller s = Returned None)
  (Hagain : rtc serve_step (serving (world s)) s2) :
  s2 = serving (world s) ∨
  (caller s2 = Returned (Some ErrNoGateInGateway) ∧ goroutines s2 = [] ∧
   gates (gateway (world s2)) = ∅ ∧ running (gateway (world s2)) = false ∧
   heap (world s2) = heap w).
Proof.
  pose proof (serve_inv_reached w s Hk Hwg Hreach) as Hinv.
  unfold serve_inv in Hinv. rewrite Hret in Hinv.
  destruct Hinv as (Hheap & _ & Hrunning & Hnil & _ & _ & _ & Hout & _).
  rewrite Hret in Hrunning. specialize (Hnil Hret).
  unfold keys_held in Hout. rewrite Hret, Hnil in Hout. cbn in Hout.
  assert (Hempty : gates (gateway (world s)) = ∅).
  { apply map_eq. intros addr. rewrite lookup_empty. apply Hout, not_elem_of_nil. }
  destruct (serve_empty_reached (world s) s2 Hempty Hagain)
    as [->|(w0 & -> & Hheap0 & Hgw0)]; [by left|right].
  cbn [caller goroutines world]. rewrite Hgw0, Hheap0. done.
Qed.

End Schedules.

(** ** Reloading a route's configuration *)

Section Reload.
Context `{C : Collaborators}.

(** X16. The handler installed by [onConfigChange], on a write event whose
    configuration cannot be loaded: it returns without running
    [UpdateProxy]. The object store, the gateway and the goroutines are the
    same in every state passed through and at the end. Its whole output is,
    in this order: the Info line "Configuration changed" if the global
    level lets it through, one read of the file, and the Error line
    "Failed to load configuration" with the error if the global level lets
    it through; both lines carry the path of the event. *)
Theorem onConfigChange_failed_load_changes_nothing (proxy : ptr) (vpr : Viper)
    (ev : Event) (err : Error) (w : World)
  (Hop : event_Op ev = fsnotify_Write) (Hload : LoadProxyConfig vpr = inr err) :
  ∃ w', outcome (Gateway_onConfigChange proxy vpr ev) w = Ret tt w' ∧
    heap w' = heap w ∧ gateway w' = gateway w ∧ tasks w' = tasks w ∧
    globalLevel w' = globalLevel w ∧
    Forall (λ s, heap s = heap w ∧ gateway s = gateway w ∧ tasks s = tasks w)
           (visited (Gateway_onConfigChange proxy vpr ev) w) ∧
    io w' = io w ++
      emitted (globalLevel w) (Logger_With_Str (logger (gateway w)) "path" (event_Name ev))
        InfoLevel [] None "Configuration changed" ++
      [ConfigLoaded vpr] ++
      emitted (globalLevel w) (Logger_With_Str (logger (gateway w)) "path" (event_Name ev))
        ErrorLevel [] (Some err) "Failed to load configuration".
Proof.
  set (lg := Logger_With_Str (logger (gateway w)) "path" (event_Name ev)).
  destruct (bind_logMsg_emitted lg InfoLevel [] None "Configuration changed" w)
    as (t0 & w0 & Hlog & Hheap0 & Hgw0 & Htasks0 & Hlvl0 & Hio0 & Ht0).
  set (w1 := set_io (λ evs, evs ++ [ConfigLoaded vpr]) w0).
  destruct (bind_logMsg_emitted lg ErrorLevel [] (Some err) "Failed to load configuration" w1)
    as (t2 & w2 & Hlog2 & Hheap2 & Hgw2 & Htasks2 & Hlvl2 & Hio2 & Ht2).
  assert (Hrun : Gateway_onConfigChange proxy vpr ev w = (t0 ++ [w1] ++ t2, Ret tt w2)).
  { unfold Gateway_onConfigChange. rewrite decide_False by (by intros Hn).
    rewrite bind_getGateway. cbn zeta. fold lg. rewrite Hlog.
    unfold call_LoadProxyConfig. repeat mstep. rewrite Hload. fold w1.
    rewrite <- (bind_ret_r (logMsg _ _ _ _ _)), Hlog2.
    unfold after_trace, ret. cbn [fst snd]. by rewrite app_nil_r, <- ?app_assoc. }
  exists w2. unfold outcome, visited. rewrite Hrun. cbn [fst snd].
  subst w1. wsimp. split; [done|].
  split; [congruence|]. split; [congruence|]. split; [congruence|].
  split; [congruence|]. split.
  - apply Forall_app. split; [exact Ht0|].
    apply List.Forall_cons; [by wsimp|].
    eapply Forall_impl; [exact Ht2|]. intros s (-> & -> & ->). by wsimp.
  - rewrite Hio2, Hio0, Hlvl0. by rewrite <- !app_assoc.
Qed.

End Reload.

(** ** The settings of the command *)

Section Command.

Lemma envBool_parsed env name value :
  envBool env name value =
  match strconv_ParseBool (os_Getenv env name) with Some b => b | None => value end.
Proof.
  unfold envBool. cbn zeta. case_decide as He; [|done]. by rewrite He.
Qed.

Lemma envBool_idem env name value :
  envBool env name (envBool env name value) = envBool env name value.
Proof. rewrite !envBool_parsed. by destruct (strconv_ParseBool _). Qed.

Lemma envString_idem env name value :
  envString env name (envString env name value) = envString env name value.
Proof. unfold envString. cbn zeta. by repeat case_decide. Qed.

(** X17. [initEnv()] can be run again without effect: the settings it
    gives from any settings are a fixed point of it, and they are the same
    for an environment in which a variable is set to the empty string as
    for one in which it is not set. *)
Theorem initEnv_idempotent (env : Env) (s : Settings) :
  initEnv env (initEnv env s) = initEnv env s ∧
  ∀ name, initEnv (<[name := ""]> env) s = initEnv (delete name env) s.
Proof.
  split.
  - unfold initEnv. cbn [debug color configPath].
    by rewrite !envBool_idem, envString_idem.
  - intros name.
    assert (Hget : ∀ n, os_Getenv (<[name := ""]> env) n = os_Getenv (delete name env) n).
    { intros n. unfold os_Getenv. destruct (decide (n = name)) as [->|Hn].
      - by rewrite lookup_insert_eq, lookup_delete_eq.
      - by rewrite lookup_insert_ne, lookup_delete_ne. }
    unfold initEnv, envBool, envString. cbn zeta. cbn [debug color configPath].
    by rewrite !Hget.
Qed.

(** X18. [init()] of the command, from the initial settings: a flag given
    on the command line wins over the environment variable, which wins
    over the initial value; a boolean variable counts only in one of the
    spellings [strconv.ParseBool] accepts and is otherwise ignored without
    a message; an empty [INFRARED_CONFIG_PATH] is ignored. The global log
    level ends at Debug exactly when [debug] is set and at Info otherwise,
    whatever it was, so the gateway's Info and Error lines are always
    written; nothing else of the world changes. *)
Theorem init_flag_over_environment_over_initial (env : Env) (args : CommandLine) (w : World) :
  ∃ s w', outcome (main_init env args initial_settings) w = Ret s w' ∧
    debug s = match clf_debug args, strconv_ParseBool (os_Getenv env envDebug) with
              | Some b, _ => b
              | None, Some b => b
              | None, None => false
              end ∧
    color s = match clf_color args, strconv_ParseBool (os_Getenv env envColor) with
              | Some b, _ => b
              | None, Some b => b
              | None, None => true
              end ∧
    configPath s = match clf_configPath args with
                   | Some p => p
                   | None => if decide (os_Getenv env envConfigPath = "") then "./configs"
                             else os_Getenv env envConfigPath
                   end ∧
    globalLevel w' = (if debug s then DebugLevel else InfoLevel) ∧
    Level_rank (globalLevel w') ≤ Level_rank InfoLevel ∧
    heap w' = heap w ∧ gateway w' = gateway w ∧ tasks w' = tasks w ∧ io w' = io w.
Proof.
  set (s := initFlags args (initEnv env initial_settings)).
  exists s.
  assert (Hs : debug s = default (envBool env envDebug false) (clf_debug args) ∧
               color s = default (envBool env envColor true) (clf_color args) ∧
               configPath s = default (envString env envConfigPath "./configs")
                                      (clf_configPath args)) by done.
  destruct Hs as (Hd & Hc & Hp). rewrite !envBool_parsed in *.
  assert (Hrun : ∃ w', outcome (main_init env args initial_settings) w = Ret s w' ∧
            w' = set_globalLevel (if debug s then DebugLevel else InfoLevel) w).
  { unfold outcome, main_init. cbn zeta. fold s. unfold zerolog_SetGlobalLevel.
    destruct (debug s); repeat mstep; eexists; split; reflexivity. }
  destruct Hrun as (w' & Hrun & ->). eexists. split; [exact Hrun|].
  split. { rewrite Hd. by destruct (clf_debug args), (strconv_ParseBool _). }
  split. { rewrite Hc. by destruct (clf_color args), (strconv_ParseBool _). }
  split. { rewrite Hp. by destruct (clf_configPath args). }
  cbn [globalLevel heap gateway tasks io set_globalLevel].
  split; [done|]. split; [|done]. destruct (debug s); cbn; lia.
Qed.

End Command.

(** ** The further properties on the deployment *)

Section DeploymentRegistry.
#[local] Existing Instance demo.

Lemma world_one_keyed : gates_keyed world_one.
Proof. apply (bool_decide_unpack _). vm_compute. reflexivity. Qed.

Lemma world_two_keyed : gates_keyed world_two.
Proof. apply (bool_decide_unpack _). vm_compute. reflexivity. Qed.

(** X1 on the deployment: the gate of [:25566] removed from [world_two]. *)
Lemma RemoveGate_registered_closes_and_deregisters_witness :
  ∃ w', outcome (Gateway_RemoveGate ":25566") world_two = Ret tt w' ∧
    gates (gateway w') = delete ":25566" (gates (gateway world_two)) ∧
    gateObjs (heap w') !! 2%positive =
      Some (set_gate_closed true (demo_gate ":25566" "b.example.com" 2)).
Proof.
  destruct (RemoveGate_registered_closes_and_deregisters ":25566" 2
              (demo_gate ":25566" "b.example.com" 2) world_two)
    as (w' & Hout & Hgates & Hobj & _); [reflexivity|reflexivity|].
  exists w'. split; [exact Hout|]. split; [exact Hgates|exact Hobj].
Defined.

(** X3 on the deployment: the spare gate of [:25567] added while the
    gateway is running. *)
Lemma AddGate_serves_only_when_running_witness :
  ∃ w', outcome (Gateway_AddGate 4) (set_gateway (set_running true) world_spare) = Ret None w' ∧
    running (gateway w') = true ∧
    tasks w' = [{| task_gate := 4%positive; task_listenTo := ":25567" |}] ∧
    wg (gateway w') = 1.
Proof.
  destruct (AddGate_serves_only_when_running 4 (new_gate ":25567")
              (set_gateway (set_running true) world_spare))
    as (w' & Hout & Hrunning & Htasks & Hwg); [reflexivity|reflexivity|].
  exists w'. split; [exact Hout|]. split; [exact Hrunning|]. split; [exact Htasks|exact Hwg].
Defined.

(** X4 on the deployment: the spare gate of [:25567] added and removed,
    on the gateway while it is running and while it is not. *)
Lemma AddGate_then_RemoveGate_restores_gates_witness :
  (∃ w', outcome (bind (Gateway_AddGate 4) (λ _, Gateway_RemoveGate ":25567"))
                 (set_gateway (set_running true) world_spare) = Ret tt w' ∧
     gates (gateway w') = gates (gateway world_spare) ∧
     io w' = [] ∧
     wg (gateway w') = 1 ∧
     tasks w' = [{| task_gate := 4%positive; task_listenTo := ":25567" |}]) ∧
  (∃ w', outcome (bind (Gateway_AddGate 4) (λ _, Gateway_RemoveGate ":25567"))
                 world_spare = Ret tt w' ∧
     gates (gateway w') = gates (gateway world_spare) ∧
     io w' = [] ∧ wg (gateway w') = 0 ∧ tasks w' = []).
Proof.
  split.
  - destruct (AddGate_then_RemoveGate_restores_gates 4 (new_gate ":25567")
                (set_gateway (set_running true) world_spare))
      as (w' & Hout & Hgates & _ & _ & _ & _ & _ & _ & _ & _ & Hio & Hwg & Htasks);
      [reflexivity|reflexivity|].
    exists w'. split; [exact Hout|]. split; [exact Hgates|]. split; [exact Hio|].
    split; [exact Hwg|exact Htasks].
  - destruct (AddGate_then_RemoveGate_restores_gates 4 (new_gate ":25567") world_spare)
      as (w' & Hout & Hgates & _ & _ & _ & _ & _ & _ & _ & _ & Hio & Hwg & Htasks);
      [reflexivity|reflexivity|].
    exists w'. split; [exact Hout|]. split; [exact Hgates|]. split; [exact Hio|].
    split; [exact Hwg|exact Htasks].
Defined.

(** X5 on the deployment: route [c] added to [world_one]. *)
Lemma AddProxy_binds_or_changes_nothing_witness :
  ∃ r w', outcome (Gateway_AddProxy 3) world_one = Ret r w' ∧
    match r with
    | Some err => w' = world_one ∧ visited (Gateway_AddProxy 3) world_one = []
    | None =>
        route_at world_one ":25565" "c.example.com" = None ∧
        route_at w' ":25565" "c.example.com" = Some 3%positive ∧
        ∀ a h, a ≠ ":25565" ∨ h ≠ "c.example.com" →
               route_at w' a h = route_at world_one a h
    end.
Proof.
  apply (AddProxy_binds_or_changes_nothing 3 (configured cfg_c) world_one);
    [reflexivity|exact world_one_keyed].
Defined.

(** X6 on the deployment: route [a] unbound in [world_two]. *)
Lemma RemoveProxy_unbinds_one_route_witness :
  ∃ w', outcome (Gateway_RemoveProxy ":25565" "a.example.com") world_two = Ret tt w' ∧
    route_at w' ":25565" "a.example.com" = None ∧
    route_at w' ":25566" "b.example.com" = route_at world_two ":25566" "b.example.com" ∧
    gateway w' = gateway world_two.
Proof.
  destruct (RemoveProxy_unbinds_one_route ":25565" "a.example.com" world_two world_two_keyed)
    as (w' & Hout & Hgone & Hothers & Hgw & _).
  exists w'. split; [exact Hout|]. split; [exact Hgone|]. split; [|exact Hgw].
  apply Hothers. left. discriminate.
Defined.

(** X7 on the deployment: route [b] added to [world_one] and removed. *)
Lemma AddProxy_then_RemoveProxy_restores_routes_witness :
  ∃ w2, outcome (Gateway_RemoveProxy ":25566" "b.example.com") world_two = Ret tt w2 ∧
    (∀ a h, route_at w2 a h = route_at world_one a h) ∧
    dom (gates (gateway w2)) = {[":25566"]} ∪ dom (gates (gateway world_one)).
Proof.
  apply (AddProxy_then_RemoveProxy_restores_routes 2 (configured cfg_b) world_one world_two);
    [reflexivity|exact world_one_keyed|exact world_two_built].
Defined.

(** X8 on the deployment: route [b] added a second time. *)
Lemma AddProxy_same_key_twice_fails_witness :
  Gateway_AddProxy 2 world_two = ([], Ret (Some ErrDuplicateHostname) world_two).
Proof.
  apply (AddProxy_same_key_twice_fails 2 2 (configured cfg_b) (configured cfg_b)
           world_one world_two);
    [reflexivity|reflexivity|reflexivity|reflexivity|exact world_one_keyed
    |exact world_two_built].
Defined.

(** X9 on the deployment: route [c] added to [world_two]. *)
Lemma gates_keyed_preserved_witness :
  ∃ w', outcome (Gateway_AddProxy 3) world_two = Ret None w' ∧ gates_keyed w'.
Proof.
  eexists. split; [vm_compute; reflexivity|].
  apply (proj1 (proj2 (proj2 (gates_keyed_preserved world_two world_two_keyed))) 3%positive None).
  vm_compute. reflexivity.
Defined.

(** X10 on the deployment: [world_two] closed. *)
Lemma Close_closes_every_gate_and_keeps_them_witness :
  ∃ w', outcome Gateway_Close world_two = Ret tt w' ∧
    gateway w' = gateway world_two ∧
    gate_at w' ":25565" = set_gate_closed true <$> gate_at world_two ":25565".
Proof.
  destruct (Close_closes_every_gate_and_keeps_them world_two
              (gates_keyed_allocated world_two world_two_keyed))
    as (w' & Hout & Hgw & Hgates & _).
  exists w'. split; [exact Hout|]. split; [exact Hgw|apply Hgates].
Defined.

(** X11 on the deployment: a second output added to [world_two]. *)
Lemma AddLoggerOutput_reaches_gateway_and_gates_witness :
  ∃ w', outcome (Gateway_AddLoggerOutput (Sink 1)) world_two = Ret tt w' ∧
    loggerOutputs (gateway w') = [Sink 1] ∧
    gate_at w' ":25566" = with_output (Sink 1) <$> gate_at world_two ":25566".
Proof.
  destruct (AddLoggerOutput_reaches_gateway_and_gates (Sink 1) world_two world_two_keyed)
    as (w' & Hout & Houts & _ & _ & Hgates & _).
  exists w'. split; [exact Hout|]. split; [exact Houts|apply Hgates].
Defined.

(** X12 on the deployment: the default logger handed to [world_two]. *)
Lemma overrideLogger_keeps_outputs_witness :
  ∃ w', outcome (Gateway_overrideLogger log_Logger) world_two =
          Ret {| logger_out := MultiWriter []; logger_ctx := [] |} w' ∧
    loggerOutputs (gateway w') = [].
Proof.
  destruct (overrideLogger_keeps_outputs log_Logger world_two world_two_keyed)
    as (w' & Hout & _ & Houts & _).
  exists w'. split; [exact Hout|exact Houts].
Defined.

Lemma world_two_every_loop_ends addr :
  is_Some (gates (gateway world_two) !! addr) → serving_ends addr.
Proof. intros _. by exists None. Qed.

(** X13 on the deployment: [world_two] served, in the schedule in which
    the goroutines finish one after another once the caller waits. *)
Lemma ListenAndServe_returns_nil_only_when_emptied_witness :
  ∃ s, rtc serve_step (serving world_two) s ∧ caller s = Returned None ∧
    gates (gateway (world s)) = ∅ ∧ running (gateway (world s)) = false ∧
    wg (gateway (world s)) = 0 ∧ goroutines s = [].
Proof.
  destruct (serve_schedule_returns world_two world_two_keyed eq_refl)
    as (s & Hreach & Hret); [discriminate|exact world_two_every_loop_ends|].
  destruct (ListenAndServe_returns_nil_only_when_emptied world_two s
              world_two_keyed eq_refl Hreach Hret)
    as (Hgates & Hrunning & Hwg & Hgs & _).
  exists s. split; [exact Hreach|]. split; [exact Hret|]. split; [exact Hgates|].
  split; [exact Hrunning|]. split; [exact Hwg|exact Hgs].
Defined.

(** X15 on the deployment: [world_two] served to its end, and again. *)
Lemma ListenAndServe_again_finds_no_gate_witness :
  ∃ s s2, rtc serve_step (serving world_two) s ∧ caller s = Returned None ∧
    rtc serve_step (serving (world s)) s2 ∧
    caller s2 = Returned (Some ErrNoGateInGateway) ∧
    gates (gateway (world s2)) = ∅ ∧ running (gateway (world s2)) = false.
Proof.
  destruct (serve_schedule_returns_again world_two world_two_keyed eq_refl)
    as (s & s2 & Hreach & Hret & Hagain & Herr);
    [discriminate|exact world_two_every_loop_ends|].
  exists s, s2. split; [exact Hreach|]. split; [exact Hret|]. split; [exact Hagain|].
  split; [exact Herr|].
  destruct (ListenAndServe_again_finds_no_gate world_two s s2
              world_two_keyed eq_refl Hreach Hret Hagain)
    as [Hsame|(_ & _ & Hgates & Hrunning & _)].
  - rewrite Hsame in Herr. discriminate Herr.
  - split; [exact Hgates|exact Hrunning].
Defined.

End DeploymentRegistry.

Section DeploymentServing.
#[local] Existing Instance demo_serving.

Lemma world_two_first_gate_serves : ¬ serving_ends ":25565".
Proof. intros [r Hr]. discriminate Hr. Qed.

(** X14 on the deployment: [world_two] served while the listener of
    [:25565] never ends, in the schedule that takes the caller into
    [wg.Wait()]. *)
Lemma ListenAndServe_never_returns_while_a_gate_serves_witness :
  ∃ gs w1, rtc serve_step (serving world_two) (mkServing Waiting gs w1) ∧
    running (gateway w1) = true ∧
    gates (gateway w1) !! ":25565" = Some 1%positive ∧
    wg (gateway w1) = length gs.
Proof.
  destruct (serve_schedule_waits (λ _, True) world_two world_two_keyed)
    as (gs & w1 & Hreach & _); [discriminate|done|].
  destruct (ListenAndServe_never_returns_while_a_gate_serves world_two ":25565"
              (mkServing Waiting gs w1) world_two_keyed eq_refl)
    as [_ Hfacts];
    [by exists 1%positive|exact world_two_first_gate_serves|exact Hreach|].
  destruct Hfacts as (Hrunning & Hgate & Hwg & _); [discriminate|discriminate|].
  exists gs, w1. split; [exact Hreach|]. split; [exact Hrunning|].
  split; [exact Hgate|exact Hwg].
Defined.

(** X16 on the deployment: the file of handle [1], which cannot be read,
    was written to. *)
Lemma onConfigChange_failed_load_changes_nothing_witness :
  ∃ w', outcome (Gateway_onConfigChange 1 1
                   {| event_Name := "configs/b.yml"; event_Op := fsnotify_Write |})
                world_two = Ret tt w' ∧
    heap w' = heap world_two ∧ gateway w' = gateway world_two ∧
    io w' =
      [Logged {| line_level := InfoLevel; line_out := Sink 0;
                 line_fields := [("path", "configs/b.yml")];
                 line_err := None; line_msg := "Configuration changed" |};
       ConfigLoaded 1;
       Logged {| line_level := ErrorLevel; line_out := Sink 0;
                 line_fields := [("path", "configs/b.yml")];
                 line_err := Some (ErrCollaborator "unreadable configuration");
                 line_msg := "Failed to load configuration" |}].
Proof.
  destruct (onConfigChange_failed_load_changes_nothing 1 1
              {| event_Name := "configs/b.yml"; event_Op := fsnotify_Write |}
              (ErrCollaborator "unreadable configuration") world_two)
    as (w' & Hout & Hheap & Hgw & _ & _ & _ & Hio); [reflexivity|reflexivity|].
  exists w'. split; [exact Hout|]. split; [exact Hheap|]. split; [exact Hgw|exact Hio].
Defined.

End DeploymentServing.
